(** * aura-clock: the ClockApp component

    A shallow embedding of [src/components/ClockApp.tsx].  The file holds two
    variants of the same React component: the card variant (theme fields
    background / cardBackground / textColor, 24-hour world clocks, an empty
    registry at start) and the glow variant (theme fields background /
    clockText / dateText / accent, 12-hour world clocks, a location badge and
    a registry seeded with London and Tokyo).  The registry, fullscreen and
    inactivity code is textually the same in both and is embedded once.

    React state cells become fields of a record, event handlers become
    functions on that record, and the inactivity [useEffect] becomes an
    explicit resource (listener + pending timeout + the values its closures
    captured) that is torn down and rebuilt when a dependency changes.
    Host inputs ([Date.now()], the fullscreen reply, geolocation and fetch
    outcomes, the time-zone database) are explicit arguments. *)

From Stdlib Require Import ZArith Ascii.
From stdpp Require Import base decidable list strings pretty.

Local Open Scope string_scope.
Local Open Scope list_scope.
Local Open Scope Z_scope.

(** ** Data model *)

(** [interface WorldClock { id; timezone; label }] *)
Module WorldClock.
Record t : Type := mk { id : string; timezone : string; label : string }.
End WorldClock.

(** The elements of [popularTimezones]: [{ timezone, label }]. *)
Module TimezoneOption.
Record t : Type := mk { timezone : string; label : string }.
End TimezoneOption.

(** [const popularTimezones = [...]], the same twelve entries in both
    variants. *)
Definition popularTimezones : list TimezoneOption.t :=
  [ TimezoneOption.mk "America/New_York" "New York";
    TimezoneOption.mk "America/Los_Angeles" "Los Angeles";
    TimezoneOption.mk "America/Chicago" "Chicago";
    TimezoneOption.mk "Europe/London" "London";
    TimezoneOption.mk "Europe/Paris" "Paris";
    TimezoneOption.mk "Europe/Berlin" "Berlin";
    TimezoneOption.mk "Asia/Tokyo" "Tokyo";
    TimezoneOption.mk "Asia/Shanghai" "Shanghai";
    TimezoneOption.mk "Asia/Dubai" "Dubai";
    TimezoneOption.mk "Asia/Singapore" "Singapore";
    TimezoneOption.mk "Australia/Sydney" "Sydney";
    TimezoneOption.mk "Pacific/Auckland" "Auckland" ].

(** [Number.prototype.toString()] on the integer that [Date.now()] returns:
    plain decimal digits, with a leading minus sign below zero. *)
Definition toString (n : Z) : string := pretty n.

(** [Array.prototype.some]. *)
Definition some {A : Type} (p : A → bool) (xs : list A) : bool := existsb p xs.

(** ** The inactivity effect

    [useEffect(() => {...}, [isFullscreen, isSettingsOpen, isAddingClock])].
    The values of the three dependencies at the time the effect ran are the
    ones its closures ([handleMouseMove] and the timeout callback) read. *)
Record Deps : Type := mkDeps {
  d_isFullscreen : bool;
  d_isSettingsOpen : bool;
  d_isAddingClock : bool
}.

#[global] Instance Deps_eq_dec : EqDecision Deps.
Proof. solve_decision. Defined.

Record Effect : Type := mkEffect {
  captured : Deps;          (* what the effect's closures see *)
  listening : bool;         (* is handleMouseMove attached to 'mousemove'? *)
  timeout : option Z        (* milliseconds until the pending callback runs *)
}.

(** ** Component state: one field per [useState] cell, plus the effect. *)
Record State : Type := mkState {
  time : Z;
  isSettingsOpen : bool;
  isFullscreen : bool;
  showControls : bool;
  worldClocks : list WorldClock.t;
  isAddingClock : bool;
  effect : Effect
}.

Definition deps (s : State) : Deps :=
  mkDeps (isFullscreen s) (isSettingsOpen s) (isAddingClock s).

(** The state setters. *)
Definition setTime (v : Z) (s : State) : State :=
  mkState v (isSettingsOpen s) (isFullscreen s) (showControls s)
          (worldClocks s) (isAddingClock s) (effect s).
Definition setIsSettingsOpen (v : bool) (s : State) : State :=
  mkState (time s) v (isFullscreen s) (showControls s)
          (worldClocks s) (isAddingClock s) (effect s).
Definition setIsFullscreen (v : bool) (s : State) : State :=
  mkState (time s) (isSettingsOpen s) v (showControls s)
          (worldClocks s) (isAddingClock s) (effect s).
Definition setShowControls (v : bool) (s : State) : State :=
  mkState (time s) (isSettingsOpen s) (isFullscreen s) v
          (worldClocks s) (isAddingClock s) (effect s).
Definition setWorldClocks (f : list WorldClock.t → list WorldClock.t)
    (s : State) : State :=
  mkState (time s) (isSettingsOpen s) (isFullscreen s) (showControls s)
          (f (worldClocks s)) (isAddingClock s) (effect s).
Definition setIsAddingClock (v : bool) (s : State) : State :=
  mkState (time s) (isSettingsOpen s) (isFullscreen s) (showControls s)
          (worldClocks s) v (effect s).
Definition setEffect (e : Effect) (s : State) : State :=
  mkState (time s) (isSettingsOpen s) (isFullscreen s) (showControls s)
          (worldClocks s) (isAddingClock s) e.

(** The idle period of [setTimeout(..., 3000)]. *)
Definition idlePeriod : Z := 3000.

(** [handleMouseMove]: show the controls, clear the pending timeout and
    schedule a new one.  The closure values are those of the effect run that
    created it; they are kept in [captured] and do not change here. *)
Definition handleMouseMove (s : State) : State :=
  let s1 := setShowControls true s in
  setEffect (mkEffect (captured (effect s1)) (listening (effect s1))
                      (Some idlePeriod)) s1.

(** The timeout callback:
    [if (isFullscreen && !isSettingsOpen && !isAddingClock) setShowControls(false)],
    reading the captured values. *)
Definition timeoutCallback (s : State) : State :=
  let c := captured (effect s) in
  if d_isFullscreen c && negb (d_isSettingsOpen c) && negb (d_isAddingClock c)
  then setShowControls false s
  else s.

(** The effect's cleanup: detach the listener, [clearTimeout(timeout)]. *)
Definition cleanup (s : State) : State :=
  setEffect (mkEffect (captured (effect s)) false None) s.

(** The effect body, run with the current values of the dependencies. *)
Definition runEffect (s : State) : State :=
  if negb (isFullscreen s) then
    setEffect (mkEffect (deps s) false None) (setShowControls true s)
  else
    let s1 := setEffect (mkEffect (deps s) false None) s in
    let s2 := handleMouseMove s1 in
    setEffect (mkEffect (captured (effect s2)) true (timeout (effect s2))) s2.

(** After a render React compares the dependency array with the one of the
    previous run; when it differs the old cleanup runs and then the effect. *)
Definition commit (s : State) : State :=
  if decide (deps s = captured (effect s)) then s else runEffect (cleanup s).

(** The mounted component: every cell at its [useState] initial value
    ([clocks] is the variant's initial registry), the effect run once. *)
Definition initialState (now : Z) (clocks : list WorldClock.t) : State :=
  runEffect (mkState now false false true clocks false
                     (mkEffect (mkDeps false false false) false None)).

(** ** World clock registry *)

(** [addWorldClock(timezone, label)], with the reading of [Date.now()]. *)
Definition addWorldClock (now : Z) (timezone label : string) (s : State)
    : State :=
  let newClock := WorldClock.mk (toString now) timezone label in
  commit (setIsAddingClock false
            (setWorldClocks (λ prev, prev ++ [newClock]) s)).

(** [removeWorldClock(id)]: [prev.filter(c => c.id !== id)]. *)
Definition removeWorldClock (id : string) (s : State) : State :=
  commit (setWorldClocks (filter (λ c, WorldClock.id c ≠ id)) s).

(** [availableTimezones], recomputed at every render from [worldClocks]. *)
Definition availableTimezones (s : State) : list TimezoneOption.t :=
  filter (λ tz, ¬ some (λ wc, bool_decide
                          (WorldClock.timezone wc = TimezoneOption.timezone tz))
                       (worldClocks s))
         popularTimezones.

(** ** Modals, ticker, pointer and timer events *)

(** The ticker: [setInterval(() => setTime(new Date()), 1000)]. *)
Definition tick (now : Z) (s : State) : State := commit (setTime now s).

(** [onClick={() => setIsSettingsOpen(v)}] and [setIsAddingClock(v)]. *)
Definition clickSettings (v : bool) (s : State) : State :=
  commit (setIsSettingsOpen v s).
Definition clickAddClock (v : bool) (s : State) : State :=
  commit (setIsAddingClock v s).

(** A ['mousemove'] event reaches [handleMouseMove] only while the effect
    has it attached. *)
Definition mouseMove (s : State) : State :=
  if listening (effect s) then handleMouseMove s else s.

(** [ms] milliseconds pass with no other event.  A pending timeout either
    comes due (it is consumed and its callback runs) or gets closer. *)
Definition elapse (ms : N) (s : State) : State :=
  match timeout (effect s) with
  | None => s
  | Some r =>
      if (Z.of_N ms <? r)
      then setEffect (mkEffect (captured (effect s)) (listening (effect s))
                               (Some (r - Z.of_N ms))) s
      else timeoutCallback
             (setEffect (mkEffect (captured (effect s)) (listening (effect s))
                                  None) s)
  end.

(** ** Fullscreen: the host and the component *)

(** [document.fullscreenElement], as the truth value the code reads. *)
Record Host : Type := mkHost { fullscreenElement : bool }.

(** What the host answers to a fullscreen request. *)
Inductive HostReply : Type :=
| Granted
| Rejected (err : string).

(** [document.documentElement.requestFullscreen()] and
    [document.exitFullscreen()]: the promise rejects, or the host changes
    its own fullscreen status. *)
Definition requestFullscreen (reply : HostReply) (h : Host) : string + Host :=
  match reply with
  | Granted => inr (mkHost true)
  | Rejected err => inl err
  end.
Definition exitFullscreen (reply : HostReply) (h : Host) : string + Host :=
  match reply with
  | Granted => inr (mkHost false)
  | Rejected err => inl err
  end.

Record World : Type := mkWorld {
  host : Host;
  app : State;
  console : list string     (* lines written by console.error *)
}.

(** [toggleFullscreen]: the request goes to the host; a rejection is caught
    and logged.  No state setter is called. *)
Definition toggleFullscreen (reply : HostReply) (w : World) : World :=
  let attempt :=
    if negb (fullscreenElement (host w))
    then requestFullscreen reply (host w)
    else exitFullscreen reply (host w) in
  match attempt with
  | inr h => mkWorld h (app w) (console w)
  | inl err => mkWorld (host w) (app w)
                       (console w ++ ["Fullscreen error: " +:+ err])
  end.

(** [handleFullscreenChange]: [setIsFullscreen(!!document.fullscreenElement)]. *)
Definition handleFullscreenChange (w : World) : World :=
  mkWorld (host w)
          (commit (setIsFullscreen (fullscreenElement (host w)) (app w)))
          (console w).

Definition onApp (f : State → State) (w : World) : World :=
  mkWorld (host w) (f (app w)) (console w).

(** Everything that can happen to a mounted component. *)
Inductive Event : Type :=
| Tick (now : Z)
| MouseMove
| Elapse (ms : N)
| HostSetsFullscreen (b : bool)      (* e.g. the user presses ESC *)
| FullscreenChange                   (* the host's 'fullscreenchange' signal *)
| ClickFullscreen (reply : HostReply)
| OpenSettings
| CloseSettings
| OpenAddClock
| CloseAddClock
| AddWorldClock (now : Z) (timezone label : string)
| RemoveWorldClock (id : string).

Definition step (e : Event) (w : World) : World :=
  match e with
  | Tick now => onApp (tick now) w
  | MouseMove => onApp mouseMove w
  | Elapse ms => onApp (elapse ms) w
  | HostSetsFullscreen b => mkWorld (mkHost b) (app w) (console w)
  | FullscreenChange => handleFullscreenChange w
  | ClickFullscreen reply => toggleFullscreen reply w
  | OpenSettings => onApp (clickSettings true) w
  | CloseSettings => onApp (clickSettings false) w
  | OpenAddClock => onApp (clickAddClock true) w
  | CloseAddClock => onApp (clickAddClock false) w
  | AddWorldClock now timezone label => onApp (addWorldClock now timezone label) w
  | RemoveWorldClock id => onApp (removeWorldClock id) w
  end.

(** Events are processed one at a time, oldest first. *)
Definition run (es : list Event) (w : World) : World :=
  foldl (λ acc e, step e acc) w es.

Definition initialWorld (now : Z) (clocks : list WorldClock.t) : World :=
  mkWorld (mkHost false) (initialState now clocks) [].

(** States of the visibility machine, read off the two flags. *)
Inductive Visibility : Type := Normal | FullscreenActive | FullscreenIdle.

Definition visibility (s : State) : Visibility :=
  if negb (isFullscreen s) then Normal
  else if showControls s then FullscreenActive else FullscreenIdle.

Definition modalOpen (s : State) : bool := isSettingsOpen s || isAddingClock s.

(** ** Time-zone formatting

    [time.toLocaleTimeString([], { hour: '2-digit', minute: '2-digit',
    hour12, timeZone })] is a host function.  Its model follows ECMA-402:
    building the formatter throws a [RangeError] when [timeZone] is not an
    identifier of the host's time-zone database; otherwise the instant is
    shifted by the zone's offset in effect and rendered (here in the en-US
    conventions).  The database itself is a parameter: it maps an identifier
    to the zone's UTC offset in minutes as a function of the instant. *)

Inductive Exception : Type :=
| RangeError (message : string).

Definition pad2 (n : Z) : string :=
  if n <? 10 then "0" +:+ pretty n else pretty n.

Section Intl.
Variable tzdb : string → option (Z → Z).

Definition toLocaleTimeString (hour12 : bool) (timeZone : string) (t : Z)
    : Exception + string :=
  match tzdb timeZone with
  | None => inl (RangeError ("Invalid time zone specified: " +:+ timeZone))
  | Some offset =>
      let wall := t + offset t * 60000 in
      let h := (wall / 3600000) mod 24 in
      let m := (wall / 60000) mod 60 in
      inr (if hour12
           then pad2 (if h mod 12 =? 0 then 12 else h mod 12) +:+ ":" +:+
                pad2 m +:+ (if h <? 12 then " AM" else " PM")
           else pad2 h +:+ ":" +:+ pad2 m)
  end.
End Intl.

(** ** The host's [Date] object

    The component keeps [new Date()] in its [time] cell and reads it
    through the local-time getters.  A [Date.t] is what those getters
    return for one instant in the viewer's zone. *)
Module Date.
Record t : Type := mk {
  getFullYear : Z;
  getMonth : Z;
  getDate : Z;
  getDay : Z;
  getHours : Z;
  getMinutes : Z;
  getSeconds : Z
}.

(** The ranges ECMAScript gives the getters of a valid date. *)
Definition inRange (d : t) : Prop :=
  0 ≤ getMonth d ≤ 11 ∧ 1 ≤ getDate d ≤ 31 ∧ 0 ≤ getDay d ≤ 6 ∧
  0 ≤ getHours d ≤ 23 ∧ 0 ≤ getMinutes d ≤ 59 ∧ 0 ≤ getSeconds d ≤ 59.
End Date.

(** The first [n] characters of [cur] followed by [pad] over and over. *)
Fixpoint filler (n : nat) (cur pad : string) : string :=
  match n with
  | O => EmptyString
  | S n' =>
      match cur with
      | String c rest => String c (filler n' rest pad)
      | EmptyString =>
          match pad with
          | String c rest => String c (filler n' rest pad)
          | EmptyString => EmptyString
          end
      end
  end.

(** [String.prototype.padStart(targetLength, padString)]. *)
Definition padStart (targetLength : nat) (padString : string) (s : string)
    : string :=
  if decide (targetLength ≤ String.length s)%nat then s
  else if decide (padString = "") then s
  else filler (targetLength - String.length s) padString padString +:+ s.

(** ** The card variant (first component of the file) *)
Module Card.

Module Theme.
(** [interface Theme { background; cardBackground; textColor }].  The
    initial theme and every preset of this variant leave [background]
    out, so reading it gives [undefined]: [None]. *)
Record t : Type := mk {
  background : option string;
  cardBackground : string;
  textColor : string
}.
End Theme.

Module Preset.
(** [Theme & { name: string }] *)
Record t : Type := mk {
  name : string;
  background : option string;
  cardBackground : string;
  textColor : string
}.
End Preset.

Definition presets : list Preset.t :=
  [ Preset.mk "Ocean" None "#5b6abf" "#e8d5d0";
    Preset.mk "Midnight" None "#1e293b" "#e2e8f0";
    Preset.mk "Forest" None "#166534" "#bbf7d0";
    Preset.mk "Sunset" None "#b45309" "#fef3c7";
    Preset.mk "Berry" None "#7c3aed" "#e9d5ff" ].

Definition initialTheme : Theme.t := Theme.mk None "#5b6abf" "#e8d5d0".

Inductive Key : Type := background | cardBackground | textColor.

(** [setTheme(prev => ({ ...prev, [key]: value }))] *)
Definition handleColorChange (key : Key) (value : string) (prev : Theme.t)
    : Theme.t :=
  match key with
  | background =>
      Theme.mk (Some value) (Theme.cardBackground prev) (Theme.textColor prev)
  | cardBackground =>
      Theme.mk (Theme.background prev) value (Theme.textColor prev)
  | textColor =>
      Theme.mk (Theme.background prev) (Theme.cardBackground prev) value
  end.

(** [setTheme({ background: preset.background, ... })]: the new value of
    the cell is built from the preset alone. *)
Definition applyPreset (preset : Preset.t) (prev : Theme.t) : Theme.t :=
  Theme.mk (Preset.background preset)
           (Preset.cardBackground preset)
           (Preset.textColor preset).

(** [useState<WorldClock[]>([])] *)
Definition initialWorldClocks : list WorldClock.t := [].

(** [formatTimeForTimezone], with [hour12: false]. *)
Definition formatTimeForTimezone (tzdb : string → option (Z → Z))
    (s : State) (timezone : string) : Exception + string :=
  toLocaleTimeString tzdb false timezone (time s).

(** *** Clock face *)

(** [getSeconds]: the seconds with a leading zero. *)
Definition getSeconds (time : Date.t) : string :=
  padStart 2 "0" (toString (Date.getSeconds time)).

(** [getTime]: [HH:MM]. *)
Definition getTime (time : Date.t) : string :=
  let hours := padStart 2 "0" (toString (Date.getHours time)) in
  let minutes := padStart 2 "0" (toString (Date.getMinutes time)) in
  hours +:+ ":" +:+ minutes.

(** [getPeriod] *)
Definition getPeriod (time : Date.t) : string :=
  if 12 <=? Date.getHours time then "PM" else "AM".

(** [getDate]: [YYYY-MM-DD]; the year goes through the template literal
    as it is. *)
Definition getDate (time : Date.t) : string :=
  let year := Date.getFullYear time in
  let month := padStart 2 "0" (toString (Date.getMonth time + 1)) in
  let day := padStart 2 "0" (toString (Date.getDate time)) in
  toString year +:+ "-" +:+ month +:+ "-" +:+ day.

Definition days : list string :=
  ["SUN"; "MON"; "TUE"; "WED"; "THU"; "FRI"; "SAT"].

(** [getDay]: [days[time.getDay()]]; an index outside the array reads
    [undefined]. *)
Definition getDay (time : Date.t) : option string :=
  if decide (0 ≤ Date.getDay time) then days !! Z.to_nat (Date.getDay time)
  else None.

(** *** Settings modal *)

(** [theme[key]] *)
Definition read (key : Key) (theme : Theme.t) : option string :=
  match key with
  | background => Theme.background theme
  | cardBackground => Some (Theme.cardBackground theme)
  | textColor => Some (Theme.textColor theme)
  end.

(** The check mark on a preset button:
    [theme.cardBackground === preset.cardBackground]. *)
Definition isSelected (theme : Theme.t) (preset : Preset.t) : bool :=
  bool_decide (Theme.cardBackground theme = Preset.cardBackground preset).

End Card.

(** ** The glow variant (second component of the file) *)
Module Glow.

Module Theme.
(** [interface Theme { background; clockText; dateText; accent }] *)
Record t : Type := mk {
  background : string;
  clockText : string;
  dateText : string;
  accent : string
}.
End Theme.

Module Preset.
Record t : Type := mk {
  name : string;
  background : string;
  clockText : string;
  dateText : string;
  accent : string
}.
End Preset.

Definition presets : list Preset.t :=
  [ Preset.mk "Midnight" "#0f172a" "#f8fafc" "#94a3b8" "#38bdf8";
    Preset.mk "Sunset" "#451a03" "#fef3c7" "#d6d3d1" "#f59e0b";
    Preset.mk "Forest" "#052e16" "#dcfce7" "#86efac" "#22c55e";
    Preset.mk "Cotton Candy" "#fdf2f8" "#db2777" "#f472b6" "#ec4899";
    Preset.mk "Matrix" "#000000" "#00ff00" "#008f00" "#00ff00" ].

Definition initialTheme : Theme.t :=
  Theme.mk "#1a1a1a" "#ffffff" "#a3a3a3" "#3b82f6".

Inductive Key : Type := background | clockText | dateText | accent.

Definition handleColorChange (key : Key) (value : string) (prev : Theme.t)
    : Theme.t :=
  match key with
  | background =>
      Theme.mk value (Theme.clockText prev) (Theme.dateText prev)
               (Theme.accent prev)
  | clockText =>
      Theme.mk (Theme.background prev) value (Theme.dateText prev)
               (Theme.accent prev)
  | dateText =>
      Theme.mk (Theme.background prev) (Theme.clockText prev) value
               (Theme.accent prev)
  | accent =>
      Theme.mk (Theme.background prev) (Theme.clockText prev)
               (Theme.dateText prev) value
  end.

Definition applyPreset (preset : Preset.t) (prev : Theme.t) : Theme.t :=
  Theme.mk (Preset.background preset)
           (Preset.clockText preset)
           (Preset.dateText preset)
           (Preset.accent preset).

(** The registry this variant starts with. *)
Definition initialWorldClocks : list WorldClock.t :=
  [ WorldClock.mk "1" "Europe/London" "London";
    WorldClock.mk "2" "Asia/Tokyo" "Tokyo" ].

(** [formatTimeForTimezone], with [hour12: true]. *)
Definition formatTimeForTimezone (tzdb : string → option (Z → Z))
    (s : State) (timezone : string) : Exception + string :=
  toLocaleTimeString tzdb true timezone (time s).

(** *** Location badge *)

(** [String.prototype.replace] with a one-character string pattern: only
    the first occurrence is replaced. *)
Fixpoint replace (pattern : ascii) (replacement : string) (s : string)
    : string :=
  match s with
  | EmptyString => EmptyString
  | String c rest =>
      if decide (c = pattern) then replacement +:+ rest
      else String c (replace pattern replacement rest)
  end.

(** The fields of the reverse-geocoding reply the code reads; a field the
    reply lacks is [None]. *)
Record GeoData : Type := mkGeoData {
  city : option string;
  locality : option string;
  principalSubdivision : option string;
  countryCode : option string
}.

(** [a || b] on values that are strings or [undefined]: the empty string
    is falsy too. *)
Definition orElse (a : option string) (b : string) : string :=
  match a with
  | Some v => if decide (v = "") then b else v
  | None => b
  end.

(** How [fetch] followed by [response.json()] ends. *)
Inductive FetchOutcome : Type :=
| FetchRejected
| JsonRejected
| JsonParsed (data : GeoData).

(** What [navigator.geolocation] does with the request. *)
Inductive Geolocation : Type :=
| NotSupported                           (* navigator.geolocation is falsy *)
| PositionError                          (* the error callback is called *)
| Position (reply : FetchOutcome).       (* the success callback is called *)

(** [fetchLocation]: the successive values given to [setLocationName].
    [timeZone] is [Intl.DateTimeFormat().resolvedOptions().timeZone]. *)
Definition fetchLocation (timeZone : string) (geo : Geolocation)
    : list string :=
  "Locating..." ::
  match geo with
  | NotSupported => ["Location not supported"]
  | Position (JsonParsed data) =>
      let city :=
        orElse (city data)
          (orElse (locality data)
             (orElse (principalSubdivision data) "Unknown Location")) in
      let country := orElse (countryCode data) "" in
      [city +:+ ", " +:+ country]
  | Position _ => [replace "_"%char " " timeZone]
  | PositionError => [replace "_"%char " " timeZone]
  end.

(** The location shown once the lookup has settled; the cell starts at
    ['Detecting Location...']. *)
Definition locationName (timeZone : string) (geo : Geolocation) : string :=
  List.last (fetchLocation timeZone geo) "Detecting Location...".

(** *** Settings modal *)

(** [theme[key]] *)
Definition read (key : Key) (theme : Theme.t) : string :=
  match key with
  | background => Theme.background theme
  | clockText => Theme.clockText theme
  | dateText => Theme.dateText theme
  | accent => Theme.accent theme
  end.

(** The check mark on a preset button:
    [theme.background === preset.background]. *)
Definition isSelected (theme : Theme.t) (preset : Preset.t) : bool :=
  bool_decide (Theme.background theme = Preset.background preset).

(** What the user can do to the theme. *)
Inductive Action : Type :=
| ApplyPreset (preset : Preset.t)
| ColorChange (key : Key) (value : string).

Definition act (theme : Theme.t) (a : Action) : Theme.t :=
  match a with
  | ApplyPreset preset => applyPreset preset theme
  | ColorChange key value => handleColorChange key value theme
  end.

(** What the settings modal renders: a button for each element of
    [presets] and colour pickers for [background], [clockText] and
    [accent]. *)
Definition inSettingsModal (a : Action) : Prop :=
  match a with
  | ApplyPreset preset => preset ∈ presets
  | ColorChange key _ => key ≠ dateText
  end.

End Glow.

(** ** Reference notions used by the statements *)

(** Every underscore becomes a space. *)
Fixpoint replaceAll (pattern replacement : ascii) (s : string) : string :=
  match s with
  | EmptyString => EmptyString
  | String c rest =>
      String (if decide (c = pattern) then replacement else c)
             (replaceAll pattern replacement rest)
  end.

Fixpoint occurrences (pattern : ascii) (s : string) : nat :=
  match s with
  | EmptyString => O
  | String c rest =>
      (if decide (c = pattern) then 1 else 0)%nat + occurrences pattern rest
  end.

(** The catalog without the time zones the registry holds. *)
Definition catalogMinusRegistry (clocks : list WorldClock.t)
    : list TimezoneOption.t :=
  filter (λ tz, TimezoneOption.timezone tz ∉ (WorldClock.timezone <$> clocks))
         popularTimezones.

Definition ids (s : State) : list string := WorldClock.id <$> worldClocks s.
Definition timezones (s : State) : list string :=
  WorldClock.timezone <$> worldClocks s.

(** Readings of [Date.now()] along a run: every add reads a value above
    [lo] and above the readings of the adds before it. *)
Fixpoint clockIncreasing (lo : Z) (es : list Event) : Prop :=
  match es with
  | [] => True
  | AddWorldClock now _ _ :: es' => lo < now ∧ clockIncreasing now es'
  | _ :: es' => clockIncreasing lo es'
  end.

(** The registry after one event, as a function of the registry before. *)
Definition registryAfter (e : Event) (clocks : list WorldClock.t)
    : list WorldClock.t :=
  match e with
  | AddWorldClock now timezone label =>
      clocks ++ [WorldClock.mk (toString now) timezone label]
  | RemoveWorldClock id => filter (λ c, WorldClock.id c ≠ id) clocks
  | _ => clocks
  end.

(** Events that are no pointer, modal or fullscreen activity: the ticker
    and the passing of time. *)
Definition quiet (e : Event) : Prop :=
  match e with
  | Tick _ | Elapse _ => True
  | _ => False
  end.

(** The time that passes over a list of events, in milliseconds. *)
Fixpoint elapsed (es : list Event) : Z :=
  match es with
  | [] => 0
  | Elapse ms :: es' => Z.of_N ms + elapsed es'
  | _ :: es' => elapsed es'
  end.

(** An idle cycle that starts afresh in [w]: controls visible, a full idle
    period pending and, unless a modal is up, over any quiet continuation
    the controls are visible as long as less than the idle period has
    passed and hidden from then on. *)
Definition restartsIdleCycle (w : World) : Prop :=
  showControls (app w) = true ∧
  timeout (effect (app w)) = Some idlePeriod ∧
  (modalOpen (app w) = false →
     ∀ es, Forall quiet es →
       showControls (app (run es w)) = bool_decide (elapsed es < idlePeriod)).

(** What holds of a rendered component: the effect's closures see the
    current values of the dependencies, the pointer listener is attached
    exactly in fullscreen, no timeout is pending outside fullscreen, and the
    controls are hidden only in fullscreen with no modal up. *)
Definition rendered (s : State) : Prop :=
  captured (effect s) = deps s
  ∧ listening (effect s) = isFullscreen s
  ∧ (isFullscreen s = false → timeout (effect s) = None)
  ∧ (showControls s = false → isFullscreen s = true ∧ modalOpen s = false).

(** ** What the view offers

    Both variants render the same handlers under the same conditions. *)

(** Is a button that opens the add prompt in the tree?  One sits in the
    world-clock row ([worldClocks.length > 0], and then
    [availableTimezones.length > 0]), the other is rendered when
    [worldClocks.length === 0]. *)
Definition addButtonRendered (s : State) : bool :=
  bool_decide (0 < length (worldClocks s))%nat
    && bool_decide (0 < length (availableTimezones s))%nat
  || bool_decide (length (worldClocks s) = 0%nat).

(** The events whose handler is attached to an element of the current
    tree: the add prompt lists [availableTimezones] and exists while
    [isAddingClock]; each chip carries the removal of its own entry; the
    close handlers belong to the modals. *)
Definition offered (s : State) (e : Event) : Prop :=
  match e with
  | OpenAddClock => addButtonRendered s
  | CloseAddClock => isAddingClock s
  | CloseSettings => isSettingsOpen s
  | AddWorldClock _ timezone label =>
      isAddingClock s ∧ TimezoneOption.mk timezone label ∈ availableTimezones s
  | RemoveWorldClock id => id ∈ ids s
  | _ => True
  end.

(** A run in which every event was offered when it happened. *)
Fixpoint offeredRun (w : World) (es : list Event) : Prop :=
  match es with
  | [] => True
  | e :: es' => offered (app w) e ∧ offeredRun (step e w) es'
  end.

(** Events whose handler leaves the three dependencies of the inactivity
    effect at their values. *)
Definition keepsDependencies (w : World) (e : Event) : Prop :=
  match e with
  | Tick _ | RemoveWorldClock _ | ClickFullscreen _ | HostSetsFullscreen _ =>
      True
  | OpenSettings => isSettingsOpen (app w) = true
  | CloseSettings => isSettingsOpen (app w) = false
  | OpenAddClock => isAddingClock (app w) = true
  | CloseAddClock | AddWorldClock _ _ _ => isAddingClock (app w) = false
  | FullscreenChange => fullscreenElement (host w) = isFullscreen (app w)
  | MouseMove | Elapse _ => False
  end.

(** The decimal digit [k] as a character, and a number below one hundred
    as its two digits. *)
Definition digitChar (k : Z) : ascii := ascii_of_nat (48 + Z.to_nat k).

Definition twoDigits (n : Z) : string :=
  String (digitChar (n / 10)) (String (digitChar (n mod 10)) EmptyString).

(** * Properties *)

(** ** Rendering never touches the registry or the dependency cells *)

Section Frames.
Implicit Types (s : State) (w : World).

Lemma commit_cases s :
  commit s = s ∨ commit s = runEffect (cleanup s).
Proof. unfold commit. case_decide; auto. Qed.

Lemma worldClocks_runEffect s : worldClocks (runEffect s) = worldClocks s.
Proof. unfold runEffect. by destruct (isFullscreen s). Qed.

Lemma deps_runEffect s : deps (runEffect s) = deps s.
Proof. unfold runEffect. by destruct (isFullscreen s). Qed.

Lemma time_runEffect s : time (runEffect s) = time s.
Proof. unfold runEffect. by destruct (isFullscreen s). Qed.

Lemma worldClocks_commit s : worldClocks (commit s) = worldClocks s.
Proof.
  destruct (commit_cases s) as [-> | ->]; [done |].
  by rewrite worldClocks_runEffect.
Qed.

Lemma deps_commit s : deps (commit s) = deps s.
Proof.
  destruct (commit_cases s) as [-> | ->]; [done |].
  by rewrite deps_runEffect.
Qed.

Lemma worldClocks_elapse ms s : worldClocks (elapse ms s) = worldClocks s.
Proof.
  unfold elapse, timeoutCallback.
  destruct (timeout (effect s)) as [r |]; [| done].
  destruct (Z.of_N ms <? r); [done |]. simpl.
  by destruct (_ && _).
Qed.

Lemma deps_elapse ms s : deps (elapse ms s) = deps s.
Proof.
  unfold elapse, timeoutCallback.
  destruct (timeout (effect s)) as [r |]; [| done].
  destruct (Z.of_N ms <? r); [done |]. simpl.
  by destruct (_ && _).
Qed.

Lemma worldClocks_mouseMove s : worldClocks (mouseMove s) = worldClocks s.
Proof. unfold mouseMove. by destruct (listening (effect s)). Qed.

Lemma app_toggleFullscreen reply w :
  app (toggleFullscreen reply w) = app w.
Proof.
  unfold toggleFullscreen.
  by destruct (fullscreenElement (host w)), reply.
Qed.

Lemma worldClocks_addWorldClock now timezone label s :
  worldClocks (addWorldClock now timezone label s)
  = worldClocks s ++ [WorldClock.mk (toString now) timezone label].
Proof. unfold addWorldClock. by rewrite worldClocks_commit. Qed.

Lemma worldClocks_removeWorldClock id s :
  worldClocks (removeWorldClock id s)
  = filter (λ c, WorldClock.id c ≠ id) (worldClocks s).
Proof. unfold removeWorldClock. by rewrite worldClocks_commit. Qed.

Lemma worldClocks_step e w :
  worldClocks (app (step e w)) = registryAfter e (worldClocks (app w)).
Proof.
  destruct e; simpl;
    rewrite ?app_toggleFullscreen;
    unfold tick, clickSettings, clickAddClock;
    rewrite ?worldClocks_commit, ?worldClocks_mouseMove, ?worldClocks_elapse,
      ?worldClocks_addWorldClock, ?worldClocks_removeWorldClock;
    done.
Qed.

Lemma run_snoc es e w : run (es ++ [e]) w = step e (run es w).
Proof. unfold run. by rewrite foldl_app. Qed.

Lemma run_cons e es w : run (e :: es) w = run es (step e w).
Proof. done. Qed.
End Frames.

(** ** World clock registry *)

Section Registry.
Implicit Types (s : State) (clocks : list WorldClock.t) (z : string).

Lemma some_timezone clocks z :
  some (λ wc, bool_decide (WorldClock.timezone wc = z)) clocks
  ↔ z ∈ WorldClock.timezone <$> clocks.
Proof.
  unfold some. induction clocks as [| c clocks IH]; simpl.
  - split; [done | by intros ?%elem_of_nil].
  - rewrite orb_True, IH, bool_decide_spec, elem_of_cons.
    split; (intros [? | ?]; [by left | by right]).
Qed.

Lemma availableTimezones_spec s :
  availableTimezones s = catalogMinusRegistry (worldClocks s).
Proof.
  unfold availableTimezones, catalogMinusRegistry.
  apply list_filter_iff. intros tz. by rewrite some_timezone.
Qed.

Lemma elem_of_availableTimezones s tz :
  tz ∈ availableTimezones s
  ↔ tz ∈ popularTimezones ∧ TimezoneOption.timezone tz ∉ timezones s.
Proof.
  rewrite availableTimezones_spec. unfold catalogMinusRegistry.
  rewrite list_elem_of_filter. unfold timezones. tauto.
Qed.

Lemma timezones_addWorldClock now z label s :
  timezones (addWorldClock now z label s) = timezones s ++ [z].
Proof.
  unfold timezones. by rewrite worldClocks_addWorldClock, fmap_app.
Qed.

Lemma ids_addWorldClock now z label s :
  ids (addWorldClock now z label s) = ids s ++ [toString now].
Proof. unfold ids. by rewrite worldClocks_addWorldClock, fmap_app. Qed.

Lemma timezones_removeWorldClock id s z :
  z ∈ timezones (removeWorldClock id s) → z ∈ timezones s.
Proof.
  unfold timezones. rewrite worldClocks_removeWorldClock.
  rewrite !list_elem_of_fmap. intros (c & -> & Hc).
  apply list_elem_of_filter in Hc as [_ Hc]. eauto.
Qed.

Lemma filter_id_absent id clocks :
  id ∉ WorldClock.id <$> clocks →
  filter (λ c, WorldClock.id c ≠ id) clocks = clocks.
Proof.
  induction clocks as [| c clocks IH]; [done |].
  rewrite fmap_cons, not_elem_of_cons. intros [Hne Hrest].
  rewrite filter_cons_True by done. by rewrite IH.
Qed.

Lemma remove_after_add now z label s :
  toString now ∉ ids s →
  worldClocks (removeWorldClock (toString now) (addWorldClock now z label s))
  = worldClocks s.
Proof.
  intros Hfresh.
  rewrite worldClocks_removeWorldClock, worldClocks_addWorldClock.
  rewrite filter_app, filter_id_absent by done.
  rewrite filter_cons_False, filter_nil, app_nil_r; [done |].
  simpl. intros Hne. by apply Hne.
Qed.
End Registry.

(** C1, as the code has it: [addWorldClock] has no duplicate check and no
    failure path.  It always appends one entry at the end and closes the add
    prompt.  A time zone the registry holds is kept out of
    [availableTimezones], the only list the add prompt offers, so it is not
    offered again: right after the add, and for as long as it is held.  An
    add of an offered time zone keeps the registry's time zones pairwise
    distinct. *)
Theorem addWorldClock_unguarded_append now z label s :
  worldClocks (addWorldClock now z label s)
    = worldClocks s ++ [WorldClock.mk (toString now) z label]
  ∧ isAddingClock (addWorldClock now z label s) = false
  ∧ (∀ tz, tz ∈ availableTimezones (addWorldClock now z label s) →
           TimezoneOption.timezone tz ≠ z)
  ∧ (z ∈ timezones s →
       ∀ tz, tz ∈ availableTimezones s → TimezoneOption.timezone tz ≠ z)
  ∧ (TimezoneOption.mk z label ∈ availableTimezones s →
       NoDup (timezones s) →
       NoDup (timezones (addWorldClock now z label s))).
Proof.
  split_and!.
  - apply worldClocks_addWorldClock.
  - unfold addWorldClock.
    pose proof (deps_commit
      (setIsAddingClock false
         (setWorldClocks
            (λ prev, prev ++ [WorldClock.mk (toString now) z label]) s))) as H.
    by injection H.
  - intros tz [_ Hout]%elem_of_availableTimezones Heq.
    apply Hout. rewrite Heq, timezones_addWorldClock, elem_of_app.
    right. by apply list_elem_of_singleton.
  - intros Hin tz [_ Hout]%elem_of_availableTimezones Heq.
    apply Hout. by rewrite Heq.
  - intros [_ Hout]%elem_of_availableTimezones Hnd. simpl in Hout.
    rewrite timezones_addWorldClock, NoDup_app.
    split_and!; [done | | apply NoDup_singleton].
    intros x Hx ->%list_elem_of_singleton. by apply Hout.
Qed.

(** C1 at a concrete state: London is held and offered no more, yet a
    second add of London goes through. *)
Lemma addWorldClock_unguarded_append_witness :
  let s := addWorldClock 1000 "Europe/London" "London" (initialState 0 []) in
  "Europe/London" ∈ timezones s
  ∧ (∀ tz, tz ∈ availableTimezones s →
           TimezoneOption.timezone tz ≠ "Europe/London")
  ∧ NoDup (timezones (addWorldClock 2000 "Asia/Tokyo" "Tokyo" s)).
Proof.
  intros s.
  assert (Hheld : "Europe/London" ∈ timezones s).
  { vm_compute. apply list_elem_of_singleton. reflexivity. }
  split; [exact Hheld |].
  pose proof (addWorldClock_unguarded_append 2000 "Asia/Tokyo" "Tokyo" s)
    as (_ & _ & _ & _ & Hnd).
  pose proof (addWorldClock_unguarded_append 0 "Europe/London" "London" s)
    as (_ & _ & _ & Hoff & _).
  split; [exact (Hoff Hheld) |].
  apply Hnd.
  - apply elem_of_availableTimezones. split.
    + vm_compute. do 6 apply list_elem_of_further. apply list_elem_of_here.
    + vm_compute. intros [=]%list_elem_of_singleton.
  - vm_compute. apply NoDup_singleton.
Defined.

(** C1 as stated fails: with London in the registry, a second
    [add("Europe/London", ...)] is accepted and the registry grows. *)
Lemma add_duplicate_timezone_accepted :
  let s := addWorldClock 1000 "Europe/London" "London" (initialState 0 []) in
  "Europe/London" ∈ timezones s
  ∧ worldClocks (addWorldClock 2000 "Europe/London" "Big Ben" s)
    = [ WorldClock.mk "1000" "Europe/London" "London";
        WorldClock.mk "2000" "Europe/London" "Big Ben" ]
  ∧ worldClocks (addWorldClock 2000 "Europe/London" "Big Ben" s)
    ≠ worldClocks s.
Proof.
  split_and!.
  - vm_compute. apply list_elem_of_singleton. reflexivity.
  - vm_compute. reflexivity.
  - vm_compute. intros [=].
Qed.

(** ** Identifiers *)

Section Identifiers.
Implicit Types (w : World) (es : list Event) (lo : Z).

Lemma toString_inj (n m : Z) : toString n = toString m → n = m.
Proof. unfold toString. apply (inj pretty). Qed.

Lemma ids_step e w :
  ids (app (step e w)) = WorldClock.id <$> registryAfter e (worldClocks (app w)).
Proof. unfold ids. by rewrite worldClocks_step. Qed.

(** Distinct identifiers, all of them readings not above [lo], stay
    distinct along a run whose clock readings increase from [lo]. *)
Lemma ids_unique_run es : ∀ lo w,
  NoDup (ids (app w)) →
  (∀ i, i ∈ ids (app w) → ∃ n, n ≤ lo ∧ i = toString n) →
  clockIncreasing lo es →
  NoDup (ids (app (run es w))).
Proof.
  induction es as [| e es IH]; intros lo w Hnd Hlo Hclk; [done |].
  rewrite run_cons.
  destruct e as [| | | | | | | | | | now tz lbl | id];
    try (apply (IH lo); [by rewrite ids_step | by rewrite ids_step | done]).
  - destruct Hclk as [Hlt Hclk]. apply (IH now); [| | done].
    + rewrite ids_step. simpl. rewrite fmap_app, NoDup_app.
      split_and!; [done | | apply NoDup_singleton].
      intros i Hi ->%list_elem_of_singleton.
      destruct (Hlo _ Hi) as (n & Hn & ->%toString_inj). lia.
    + rewrite ids_step. simpl. rewrite fmap_app. intros i.
      intros [Hi | ->%list_elem_of_singleton]%elem_of_app.
      * destruct (Hlo _ Hi) as (n & Hn & ->). exists n. split; [lia | done].
      * exists now. split; [lia | done].
  - simpl in Hclk. apply (IH lo); [| | done].
    + rewrite ids_step. simpl. eapply sublist_NoDup; [exact Hnd |].
      apply fmap_sublist, sublist_filter.
    + rewrite ids_step. simpl. intros i Hi. apply Hlo.
      apply list_elem_of_fmap in Hi as (c & -> & Hc).
      apply list_elem_of_filter in Hc as [_ Hc].
      by apply list_elem_of_fmap_2.
Qed.
End Identifiers.

(** Identifiers are the decimal readings of [Date.now()]: they are
    pairwise distinct in every state reached by a run in which each add
    reads the clock strictly later than the adds before it (and, in the
    glow variant, later than 2, the larger of the two seeded identifiers).
    Removals and every other event keep them distinct. *)
Theorem ids_unique_under_increasing_clock es now0 :
  (∀ lo, clockIncreasing lo es →
     NoDup (ids (app (run es (initialWorld now0 Card.initialWorldClocks)))))
  ∧ (clockIncreasing 2 es →
     NoDup (ids (app (run es (initialWorld now0 Glow.initialWorldClocks))))).
Proof.
  split.
  - intros lo. apply ids_unique_run.
    + apply NoDup_nil_2.
    + intros i Hi. by apply elem_of_nil in Hi.
  - apply ids_unique_run.
    + vm_compute. apply NoDup_cons. split; [| apply NoDup_singleton].
      intros [=]%list_elem_of_singleton.
    + intros i Hi. vm_compute in Hi.
      apply elem_of_cons in Hi as [-> | ->%list_elem_of_singleton].
      * exists 1. split; [lia | reflexivity].
      * exists 2. split; [lia | reflexivity].
Qed.

(** A run of the glow variant with three adds a millisecond apart and a
    removal of a seeded entry. *)
Lemma ids_unique_under_increasing_clock_witness :
  NoDup (ids (app (run
    [ AddWorldClock 1700000000000 "Europe/Paris" "Paris";
      AddWorldClock 1700000000001 "Asia/Dubai" "Dubai";
      RemoveWorldClock "1";
      AddWorldClock 1700000000002 "Europe/Berlin" "Berlin" ]
    (initialWorld 0 Glow.initialWorldClocks)))).
Proof.
  apply (ids_unique_under_increasing_clock _ 0). simpl. lia.
Defined.

(** C4: the code does not give every entry an identifier of its own.  Two
    adds that read the same value of [Date.now()] get the same identifier,
    from any state; the identifiers are then not pairwise distinct, and one
    removal by that identifier takes out both entries.  This happens on a
    run through the view (the add prompt opened, Paris chosen, the prompt
    opened again, Dubai chosen, both within one millisecond): two chips
    with the identifier 1700000000000, gone together at one removal. *)
Theorem add_same_reading_same_id :
  (∀ s now z1 l1 z2 l2,
     let s2 := addWorldClock now z2 l2 (addWorldClock now z1 l1 s) in
     ids s2 = ids s ++ [toString now; toString now]
     ∧ ¬ NoDup (ids s2)
     ∧ worldClocks (removeWorldClock (toString now) s2)
       = worldClocks (removeWorldClock (toString now) s))
  ∧ (let es := [ OpenAddClock;
                 AddWorldClock 1700000000000 "Europe/Paris" "Paris";
                 OpenAddClock;
                 AddWorldClock 1700000000000 "Asia/Dubai" "Dubai" ] in
     let w := run es (initialWorld 0 Card.initialWorldClocks) in
     offeredRun (initialWorld 0 Card.initialWorldClocks) es
     ∧ worldClocks (app w)
       = [ WorldClock.mk "1700000000000" "Europe/Paris" "Paris";
           WorldClock.mk "1700000000000" "Asia/Dubai" "Dubai" ]
     ∧ ¬ NoDup (ids (app w))
     ∧ worldClocks (app (step (RemoveWorldClock "1700000000000") w)) = []).
Proof.
  assert (Hgen : ∀ s now z1 l1 z2 l2,
            ids (addWorldClock now z2 l2 (addWorldClock now z1 l1 s))
            = ids s ++ [toString now; toString now]).
  { intros s now z1 l1 z2 l2.
    by rewrite !ids_addWorldClock, <- app_assoc. }
  assert (Htwice : ∀ (l : list string) i, ¬ NoDup (l ++ [i; i])).
  { intros l i (_ & _ & Hii)%NoDup_app.
    apply NoDup_cons in Hii as [Hnotin _]. apply Hnotin, list_elem_of_here. }
  split.
  - intros s now z1 l1 z2 l2 s2. split_and!.
    + apply Hgen.
    + unfold s2. rewrite Hgen. apply Htwice.
    + unfold s2.
      rewrite !worldClocks_removeWorldClock, !worldClocks_addWorldClock.
      rewrite !filter_app.
      rewrite !filter_cons_False by (simpl; intros Hne; by apply Hne).
      by rewrite filter_nil, !app_nil_r.
  - intros es w. split_and!.
    + simpl. split_and!;
        first [ exact I
              | vm_compute; exact I
              | vm_compute;
                repeat first [apply list_elem_of_here | apply list_elem_of_further] ].
    + vm_compute. reflexivity.
    + vm_compute. apply (Htwice [] "1700000000000").
    + vm_compute. reflexivity.
Qed.

(** Removing the entry an add has just appended leaves no time zone behind
    that the registry did not hold before the add. *)
Lemma timezones_remove_added now z label s z' :
  z' ∈ timezones (removeWorldClock (toString now) (addWorldClock now z label s)) →
  z' ∈ timezones s.
Proof.
  unfold timezones.
  rewrite worldClocks_removeWorldClock, worldClocks_addWorldClock, filter_app.
  rewrite filter_cons_False, filter_nil, app_nil_r
    by (simpl; intros Hne; by apply Hne).
  rewrite !list_elem_of_fmap. intros (c & -> & Hc).
  apply list_elem_of_filter in Hc as [_ Hc]. eauto.
Qed.

(** C5: the available list is the catalog without the time zones the
    registry holds, so it never offers a held time zone; adding an available
    entry takes it off the list and removing the entry just added (by the
    identifier it was given) puts it back.  When that identifier was not in
    use the registry, and with it the whole available list, is as before. *)
Theorem availableTimezones_complement_roundtrip s :
  availableTimezones s = catalogMinusRegistry (worldClocks s)
  ∧ (∀ tz, tz ∈ availableTimezones s →
           TimezoneOption.timezone tz ∉ timezones s)
  ∧ (∀ e now, e ∈ availableTimezones s →
       let s1 := addWorldClock now (TimezoneOption.timezone e)
                               (TimezoneOption.label e) s in
       (e ∉ availableTimezones s1)
       ∧ e ∈ availableTimezones (removeWorldClock (toString now) s1))
  ∧ (∀ e now, toString now ∉ ids s →
       let s1 := addWorldClock now (TimezoneOption.timezone e)
                               (TimezoneOption.label e) s in
       availableTimezones (removeWorldClock (toString now) s1)
       = availableTimezones s).
Proof.
  split_and!.
  - apply availableTimezones_spec.
  - by intros tz [_ Hout]%elem_of_availableTimezones.
  - intros e now [Hcat Hout]%elem_of_availableTimezones s1. split.
    + intros [_ Hout1]%elem_of_availableTimezones. apply Hout1.
      unfold s1. rewrite timezones_addWorldClock, elem_of_app.
      right. by apply list_elem_of_singleton.
    + apply elem_of_availableTimezones. split; [done |].
      intros Hin. apply Hout. unfold s1 in Hin.
      by apply timezones_remove_added in Hin.
  - intros e now Hfresh s1. rewrite !availableTimezones_spec.
    unfold s1. by rewrite remove_after_add.
Qed.

(** C5 on the glow variant's initial registry (London, Tokyo): Paris is
    available, disappears when added and is back once its entry is removed. *)
Lemma availableTimezones_complement_roundtrip_witness :
  let s := initialState 0 Glow.initialWorldClocks in
  let paris := TimezoneOption.mk "Europe/Paris" "Paris" in
  let s1 := addWorldClock 1700000000000 "Europe/Paris" "Paris" s in
  paris ∈ availableTimezones s
  ∧ (paris ∉ availableTimezones s1)
  ∧ paris ∈ availableTimezones (removeWorldClock (toString 1700000000000) s1)
  ∧ availableTimezones (removeWorldClock (toString 1700000000000) s1)
    = availableTimezones s.
Proof.
  intros s paris s1.
  assert (Hav : paris ∈ availableTimezones s).
  { vm_compute. do 3 apply list_elem_of_further. apply list_elem_of_here. }
  pose proof (availableTimezones_complement_roundtrip s)
    as (_ & _ & Hround & Hall).
  destruct (Hround paris 1700000000000 Hav) as [Hoff Hback].
  split_and!; [exact Hav | exact Hoff | exact Hback |].
  apply (Hall paris 1700000000000).
  vm_compute. intros Hin.
  apply elem_of_cons in Hin as [Hin | Hin]; [discriminate Hin |].
  apply list_elem_of_singleton in Hin. discriminate Hin.
Defined.

(** C6: [removeWorldClock(id)] leaves no entry with that identifier, keeps
    every other entry, keeps the survivors in the order they had, and
    changes nothing when no entry has the identifier: the registry is the
    same list and, the component being rendered (its effect in step with its
    state), so is the whole state.  It has no failure path. *)
Theorem removeWorldClock_deletes_in_order id s :
  (id ∉ ids (removeWorldClock id s))
  ∧ (∀ c, c ∈ worldClocks (removeWorldClock id s)
          ↔ c ∈ worldClocks s ∧ WorldClock.id c ≠ id)
  ∧ worldClocks (removeWorldClock id s) `sublist_of` worldClocks s
  ∧ (id ∉ ids s → worldClocks (removeWorldClock id s) = worldClocks s)
  ∧ (id ∉ ids s → deps s = captured (effect s) → removeWorldClock id s = s).
Proof.
  split_and!.
  - unfold ids. rewrite worldClocks_removeWorldClock.
    intros (c & Hid & Hc)%list_elem_of_fmap.
    apply list_elem_of_filter in Hc as [Hne _]. by apply Hne.
  - intros c. rewrite worldClocks_removeWorldClock, list_elem_of_filter. tauto.
  - rewrite worldClocks_removeWorldClock. apply sublist_filter.
  - intros Habs. rewrite worldClocks_removeWorldClock.
    by apply filter_id_absent.
  - intros Habs Hsync. unfold removeWorldClock, setWorldClocks.
    rewrite filter_id_absent by done.
    unfold commit. rewrite decide_True by done. by destruct s.
Qed.

(** C6 on the glow variant's initial registry: no entry has identifier
    ["3"], and removing it changes nothing. *)
Lemma removeWorldClock_deletes_in_order_witness :
  let s := initialState 0 Glow.initialWorldClocks in
  worldClocks (removeWorldClock "3" s) = worldClocks s
  ∧ removeWorldClock "3" s = s.
Proof.
  intros s.
  assert (Habs : "3" ∉ ids s).
  { vm_compute. intros Hin.
    apply elem_of_cons in Hin as [Hin | Hin]; [discriminate Hin |].
    apply list_elem_of_singleton in Hin. discriminate Hin. }
  pose proof (removeWorldClock_deletes_in_order "3" s)
    as (_ & _ & _ & Hsame & Hnoop).
  split; [exact (Hsame Habs) |].
  apply (Hnoop Habs). vm_compute. reflexivity.
Defined.

Lemma isFullscreen_commit s : isFullscreen (commit s) = isFullscreen s.
Proof. pose proof (deps_commit s) as H. by injection H. Qed.

Lemma isFullscreen_elapse ms s : isFullscreen (elapse ms s) = isFullscreen s.
Proof. pose proof (deps_elapse ms s) as H. by injection H. Qed.

Lemma isFullscreen_mouseMove s : isFullscreen (mouseMove s) = isFullscreen s.
Proof. unfold mouseMove. by destruct (listening (effect s)). Qed.

(** ** The visibility machine *)

Section Visibility.
Implicit Types (s : State) (w : World).

Lemma rendered_runEffect s : rendered (runEffect (cleanup s)).
Proof.
  unfold rendered, runEffect, cleanup, modalOpen.
  destruct s as [t so fs sc wc ac ef]; simpl.
  destruct fs; simpl; split_and!; done.
Qed.

(** A handler that leaves the effect and [showControls] alone, followed
    by the render. *)
Lemma rendered_commit s s' :
  rendered s →
  effect s' = effect s →
  showControls s' = showControls s →
  rendered (commit s').
Proof.
  intros (Hcap & Hlis & Hto & Hhid) Hef Hsc. unfold commit.
  case_decide as Hsync; [| apply rendered_runEffect].
  rewrite Hef, Hcap in Hsync. injection Hsync as Hfs Hso Hac.
  unfold rendered, modalOpen in *.
  rewrite Hef, Hsc, Hcap, Hfs, Hso, Hac. unfold deps.
  rewrite Hfs, Hso, Hac. split_and!; done.
Qed.

Lemma rendered_mouseMove s : rendered s → rendered (mouseMove s).
Proof.
  unfold mouseMove, rendered, handleMouseMove, modalOpen, deps.
  destruct s as [t so fs sc wc ac [cap lis tmo]]; simpl.
  intros (Hcap & Hlis & Hto & Hhid).
  destruct lis; simpl; split_and!; try done.
  intros Hfs. congruence.
Qed.

Lemma rendered_elapse ms s : rendered s → rendered (elapse ms s).
Proof.
  unfold elapse, timeoutCallback, rendered, modalOpen, deps.
  destruct s as [t so fs sc wc ac [cap lis tmo]]; simpl.
  intros (Hcap & Hlis & Hto & Hhid). subst cap lis.
  destruct tmo as [r |]; [| by split_and!].
  destruct (Z.of_N ms <? r); simpl.
  - split_and!; try done. intros ->. by specialize (Hto eq_refl).
  - destruct fs; [| by specialize (Hto eq_refl)].
    destruct so, ac; simpl; split_and!; done.
Qed.

Lemma rendered_step e w : rendered (app w) → rendered (app (step e w)).
Proof.
  intros Hr. destruct e; simpl;
    rewrite ?app_toggleFullscreen; try done;
    try (by eapply rendered_commit);
    auto using rendered_mouseMove, rendered_elapse.
Qed.

Lemma rendered_initialState now clocks : rendered (initialState now clocks).
Proof. unfold rendered, modalOpen. simpl. split_and!; done. Qed.

Lemma rendered_run es : ∀ w, rendered (app w) → rendered (app (run es w)).
Proof.
  induction es as [| e es IH]; intros w Hr; [done |].
  rewrite run_cons. by apply IH, rendered_step.
Qed.

Lemma rendered_reachable now clocks es :
  rendered (app (run es (initialWorld now clocks))).
Proof. apply rendered_run, rendered_initialState. Qed.

Lemma rendered_visible s :
  rendered s → isFullscreen s = true → modalOpen s = true →
  showControls s = true.
Proof.
  intros (_ & _ & _ & Hhid) Hfs Hmod.
  destruct (showControls s); [done |].
  destruct Hhid as [_ Hno]; [done |]. congruence.
Qed.

Lemma visibility_elapse_fullscreen ms s :
  isFullscreen (elapse ms s) = isFullscreen s
  ∧ modalOpen (elapse ms s) = modalOpen s.
Proof.
  pose proof (deps_elapse ms s) as H. injection H as Hfs Hso Hac.
  unfold modalOpen. by rewrite Hfs, Hso, Hac.
Qed.

Lemma tick_rendered now s : rendered s → tick now s = setTime now s.
Proof.
  intros (Hcap & _). unfold tick, commit.
  rewrite decide_True; [done |]. simpl. by rewrite Hcap.
Qed.

Lemma elapsed_nonneg es : 0 ≤ elapsed es.
Proof. induction es as [| [] es IH]; simpl; lia. Qed.

Lemma app_step_Tick now w :
  rendered (app w) → app (step (Tick now) w) = setTime now (app w).
Proof. intros Hr. simpl. by apply tick_rendered. Qed.

(** With no timeout pending, quiet events leave the controls as they are. *)
Lemma quiet_run_no_timeout es : ∀ w,
  rendered (app w) →
  timeout (effect (app w)) = None →
  Forall quiet es →
  showControls (app (run es w)) = showControls (app w).
Proof.
  induction es as [| e es IH]; intros w Hr Hto Hq; [done |].
  apply Forall_cons in Hq as [He Hq]. rewrite run_cons.
  destruct e; try done.
  - pose proof (app_step_Tick now w Hr) as Hst.
    rewrite IH; rewrite ?Hst; done.
  - assert (Hst : app (step (Elapse ms) w) = app w).
    { simpl. unfold elapse. by rewrite Hto. }
    rewrite IH; by rewrite ?Hst.
Qed.

(** A pending timeout of an effect that saw fullscreen and no modal:
    over quiet events the controls are visible until it is due. *)
Lemma quiet_run_countdown es : ∀ w r,
  rendered (app w) →
  isFullscreen (app w) = true →
  modalOpen (app w) = false →
  showControls (app w) = true →
  timeout (effect (app w)) = Some r →
  0 < r →
  Forall quiet es →
  showControls (app (run es w)) = bool_decide (elapsed es < r).
Proof.
  induction es as [| e es IH]; intros w r Hr Hfs Hmod Hsc Hto Hpos Hq.
  - simpl. by rewrite bool_decide_eq_true_2.
  - apply Forall_cons in Hq as [He Hq]. rewrite run_cons.
    destruct e; try done.
    + pose proof (app_step_Tick now w Hr) as Hst.
      apply IH; rewrite ?Hst; done.
    + change (elapsed (Elapse ms :: es)) with (Z.of_N ms + elapsed es).
      destruct (Z.ltb_spec (Z.of_N ms) r) as [Hlt | Hge].
      * assert (Hst : app (step (Elapse ms) w)
                      = setEffect (mkEffect (captured (effect (app w)))
                                            (listening (effect (app w)))
                                            (Some (r - Z.of_N ms))) (app w)).
        { simpl. unfold elapse. rewrite Hto.
          by rewrite (proj2 (Z.ltb_lt _ _) Hlt). }
        pose proof (rendered_step (Elapse ms) w Hr) as Hr'.
        rewrite (IH _ (r - Z.of_N ms) Hr'); rewrite ?Hst; try done; try lia.
        apply bool_decide_ext. lia.
      * assert (Hst : app (step (Elapse ms) w)
                      = setShowControls false
                          (setEffect (mkEffect (captured (effect (app w)))
                                               (listening (effect (app w)))
                                               None) (app w))).
        { simpl. unfold elapse, timeoutCallback. rewrite Hto.
          rewrite (proj2 (Z.ltb_ge _ _) Hge). simpl.
          destruct Hr as (-> & _). unfold deps. simpl. rewrite Hfs.
          unfold modalOpen in Hmod.
          apply orb_false_elim in Hmod as [-> ->]. done. }
        pose proof (rendered_step (Elapse ms) w Hr) as Hr'.
        rewrite quiet_run_no_timeout; try done; [| by rewrite Hst].
        rewrite Hst. simpl.
        pose proof (elapsed_nonneg es).
        by rewrite bool_decide_eq_false_2 by lia.
Qed.

(** A changed dependency makes the render start the idle cycle afresh. *)
Lemma restartsIdleCycle_commit w s' :
  rendered (app w) →
  effect s' = effect (app w) →
  deps s' ≠ deps (app w) →
  isFullscreen s' = true →
  restartsIdleCycle (mkWorld (host w) (commit s') (console w)).
Proof.
  intros Hr Hef Hne Hfs.
  assert (Hrun : commit s' = runEffect (cleanup s')).
  { unfold commit. destruct Hr as (Hcap & _).
    by rewrite decide_False by (by rewrite Hef, Hcap). }
  assert (Hr' : rendered (commit s')) by (rewrite Hrun; apply rendered_runEffect).
  assert (Hfs' : isFullscreen (commit s') = true)
    by (by rewrite isFullscreen_commit).
  assert (Hfresh : showControls (commit s') = true
                   ∧ timeout (effect (commit s')) = Some idlePeriod).
  { rewrite Hrun. unfold runEffect, cleanup.
    destruct s' as [t so fs sc wc ac ef]; simpl in *. by subst fs. }
  destruct Hfresh as [Hsc Hto].
  unfold restartsIdleCycle. simpl. split_and!; [done | done |].
  intros Hmod es Hq.
  by apply quiet_run_countdown.
Qed.
End Visibility.

(** C7: in every state the component can reach, fullscreen with a modal
    (settings or add-clock) up means the controls are visible, and a due
    idle timer does not change that: however much time passes, the machine
    stays in [FullscreenActive].  In particular, opening a modal in
    fullscreen and letting the idle period pass never leads to
    [FullscreenIdle] while the modal is up. *)
Theorem modal_suppresses_idle_hide now clocks es :
  let s := app (run es (initialWorld now clocks)) in
  isFullscreen s = true →
  modalOpen s = true →
  visibility s = FullscreenActive
  ∧ (∀ ms, visibility (elapse ms s) = FullscreenActive)
  ∧ (∀ ms, visibility (elapse ms (clickSettings true s)) = FullscreenActive)
  ∧ (∀ ms, visibility (elapse ms (clickAddClock true s)) = FullscreenActive).
Proof.
  intros s Hfs Hmod.
  assert (Hvis : ∀ s', rendered s' → isFullscreen s' = true →
                       modalOpen s' = true → visibility s' = FullscreenActive).
  { intros s' Hr Hfs' Hmod'. unfold visibility.
    by rewrite Hfs', (rendered_visible s' Hr Hfs' Hmod'). }
  assert (Hr : rendered s) by apply rendered_reachable.
  assert (Hel : ∀ ms s', rendered s' → isFullscreen s' = true →
                         modalOpen s' = true →
                         visibility (elapse ms s') = FullscreenActive).
  { intros ms s' Hr' Hfs' Hmod'.
    destruct (visibility_elapse_fullscreen ms s') as [Hfs2 Hmod2].
    apply Hvis; [by apply rendered_elapse | congruence | congruence]. }
  split_and!.
  - by apply Hvis.
  - intros ms. by apply Hel.
  - intros ms. apply Hel.
    + by eapply rendered_commit.
    + unfold clickSettings.
      pose proof (deps_commit (setIsSettingsOpen true s)) as H.
      injection H as H _ _. by rewrite H.
    + unfold clickSettings, modalOpen.
      pose proof (deps_commit (setIsSettingsOpen true s)) as H.
      injection H as _ H _. by rewrite H.
  - intros ms. apply Hel.
    + by eapply rendered_commit.
    + unfold clickAddClock.
      pose proof (deps_commit (setIsAddingClock true s)) as H.
      injection H as H _ _. by rewrite H.
    + unfold clickAddClock, modalOpen.
      pose proof (deps_commit (setIsAddingClock true s)) as H.
      injection H as _ _ H. rewrite H. simpl. apply orb_true_r.
Qed.

(** C7 on a run: fullscreen is entered, the settings modal opens, five
    seconds pass.  The timeout has come due and is gone, and the controls
    are still visible. *)
Lemma modal_suppresses_idle_hide_witness :
  let s := app (run [ HostSetsFullscreen true; FullscreenChange;
                      Elapse 1000; OpenSettings; Elapse 5000 ]
                    (initialWorld 0 Card.initialWorldClocks)) in
  timeout (effect s) = None
  ∧ visibility s = FullscreenActive
  ∧ visibility (elapse 3000 s) = FullscreenActive.
Proof.
  intros s. split; [vm_compute; reflexivity |].
  pose proof (modal_suppresses_idle_hide 0 Card.initialWorldClocks
    [ HostSetsFullscreen true; FullscreenChange;
      Elapse 1000; OpenSettings; Elapse 5000 ]) as H.
  destruct H as (Hnow & Hlater & _ & _);
    [vm_compute; reflexivity | vm_compute; reflexivity |].
  split; [exact Hnow | exact (Hlater 3000%N)].
Defined.

(** C10: when a modal closes in fullscreen (the settings modal, the
    add-clock modal, or the add-clock modal through an add), and when the
    host's signal reports that fullscreen was entered, the idle cycle starts
    afresh at that moment: the controls are visible, a full idle period is
    pending and, no modal being up any more, with nothing happening but the
    ticker and the passing of time the controls stay visible until exactly
    that period has passed, and are hidden from then on. *)
Theorem idle_cycle_restarts_on_modal_close now clocks es :
  let w := run es (initialWorld now clocks) in
  (isFullscreen (app w) = true → isSettingsOpen (app w) = true →
     restartsIdleCycle (step CloseSettings w))
  ∧ (isFullscreen (app w) = true → isAddingClock (app w) = true →
     restartsIdleCycle (step CloseAddClock w)
     ∧ ∀ now' timezone label,
         restartsIdleCycle (step (AddWorldClock now' timezone label) w))
  ∧ (isFullscreen (app w) = false → fullscreenElement (host w) = true →
     restartsIdleCycle (step FullscreenChange w)).
Proof.
  intros w.
  assert (Hr : rendered (app w)) by apply rendered_reachable.
  split_and!.
  - intros Hfs Hso. simpl. unfold onApp, clickSettings.
    apply restartsIdleCycle_commit; [done | done | | done].
    unfold deps. simpl. rewrite Hso. intros [=].
  - intros Hfs Hac. split; [| intros now' timezone label].
    + simpl. unfold onApp, clickAddClock.
      apply restartsIdleCycle_commit; [done | done | | done].
      unfold deps. simpl. rewrite Hac. intros [=].
    + simpl. unfold onApp, addWorldClock.
      apply restartsIdleCycle_commit; [done | done | | done].
      unfold deps. simpl. rewrite Hac. intros [=].
  - intros Hfs Hhost. simpl. unfold handleFullscreenChange.
    apply restartsIdleCycle_commit; [done | done | | done].
    unfold deps. simpl. rewrite Hhost, Hfs. intros [=].
Qed.

(** C10 on a run: in fullscreen the settings modal is opened and, five
    seconds later, closed.  From that moment, with the ticker running, the
    controls are visible after 2999 ms and hidden after 3000 ms. *)
Lemma idle_cycle_restarts_on_modal_close_witness :
  let w := run [ HostSetsFullscreen true; FullscreenChange;
                 OpenSettings; Elapse 5000; CloseSettings ]
               (initialWorld 0 Card.initialWorldClocks) in
  showControls (app w) = true
  ∧ timeout (effect (app w)) = Some 3000
  ∧ showControls (app (run [Elapse 1000; Tick 1000; Elapse 1000; Tick 2000;
                            Elapse 999] w)) = true
  ∧ showControls (app (run [Elapse 1000; Tick 1000; Elapse 1000; Tick 2000;
                            Elapse 1000] w)) = false.
Proof.
  intros w.
  pose proof (idle_cycle_restarts_on_modal_close 0 Card.initialWorldClocks
    [ HostSetsFullscreen true; FullscreenChange; OpenSettings; Elapse 5000 ])
    as (Hclose & _ & _).
  destruct Hclose as (Hshown & Hpending & Hcycle);
    [vm_compute; reflexivity | vm_compute; reflexivity |].
  split_and!; [exact Hshown | exact Hpending | |].
  - apply (Hcycle eq_refl
      [Elapse 1000; Tick 1000; Elapse 1000; Tick 2000; Elapse 999]).
    repeat constructor.
  - apply (Hcycle eq_refl
      [Elapse 1000; Tick 1000; Elapse 1000; Tick 2000; Elapse 1000]).
    repeat constructor.
Defined.

(** ** Fullscreen requests *)

Lemma isFullscreen_step e w :
  e ≠ FullscreenChange →
  isFullscreen (app (step e w)) = isFullscreen (app w).
Proof.
  intros Hne. destruct e; simpl; try done;
    rewrite ?app_toggleFullscreen; try done;
    unfold tick, clickSettings, clickAddClock, addWorldClock, removeWorldClock;
    rewrite ?isFullscreen_commit, ?isFullscreen_elapse, ?isFullscreen_mouseMove;
    done.
Qed.

(** C9: the fullscreen toggle calls no state setter, so the component's
    state, [isFullscreen] and [showControls] included, is the same after it
    whatever the host replies; a request the host declines changes nothing
    at all and leaves one line on the error console.  [isFullscreen] changes
    on no event but the host's fullscreen-change signal, which sets it to
    the host's own status. *)
Theorem toggleFullscreen_leaves_visibility reply w :
  app (toggleFullscreen reply w) = app w
  ∧ (∀ err, toggleFullscreen (Rejected err) w
            = mkWorld (host w) (app w)
                      (console w ++ ["Fullscreen error: " +:+ err]))
  ∧ (∀ e, isFullscreen (app (step e w)) ≠ isFullscreen (app w) →
          e = FullscreenChange)
  ∧ isFullscreen (app (handleFullscreenChange w)) = fullscreenElement (host w).
Proof.
  split_and!.
  - apply app_toggleFullscreen.
  - intros err. unfold toggleFullscreen.
    by destruct (fullscreenElement (host w)).
  - intros e Hchg.
    destruct e; try reflexivity;
      exfalso; apply Hchg; by apply isFullscreen_step.
  - unfold handleFullscreenChange. simpl.
    pose proof (deps_commit
      (setIsFullscreen (fullscreenElement (host w)) (app w))) as H.
    by injection H.
Qed.

(** C9 on a world whose host is in fullscreen while the component has not
    heard of it yet: a granted and a declined toggle both leave the
    component as it was, and the event that does change [isFullscreen] is
    the host's signal. *)
Lemma toggleFullscreen_leaves_visibility_witness :
  let w := mkWorld (mkHost true) (initialState 0 Card.initialWorldClocks) [] in
  app (toggleFullscreen Granted w) = app w
  ∧ toggleFullscreen (Rejected "denied") w
    = mkWorld (host w) (app w) ["Fullscreen error: denied"]
  ∧ isFullscreen (app (step FullscreenChange w)) ≠ isFullscreen (app w)
  ∧ FullscreenChange = FullscreenChange.
Proof.
  intros w.
  pose proof (toggleFullscreen_leaves_visibility Granted w)
    as (Hsame & Hrej & Honly & _).
  assert (Hchg : isFullscreen (app (step FullscreenChange w))
                 ≠ isFullscreen (app w)).
  { vm_compute. intros Heq. discriminate Heq. }
  split_and!;
    [exact Hsame | exact (Hrej "denied") | exact Hchg
    | exact (Honly FullscreenChange Hchg)].
Defined.

(** ** Themes *)

(** C3: after [applyPreset(P)] every field of the theme is the field of [P]
    of the same name, whatever the theme was before (so nothing of the
    earlier theme is left), in both variants.  In the card variant the
    presets carry no [background], and none is what the theme then has. *)
Theorem applyPreset_replaces_every_field :
  (∀ (P : Card.Preset.t) (prev : Card.Theme.t),
     Card.Theme.background (Card.applyPreset P prev) = Card.Preset.background P
     ∧ Card.Theme.cardBackground (Card.applyPreset P prev)
       = Card.Preset.cardBackground P
     ∧ Card.Theme.textColor (Card.applyPreset P prev) = Card.Preset.textColor P
     ∧ ∀ prev', Card.applyPreset P prev' = Card.applyPreset P prev)
  ∧ (∀ (P : Glow.Preset.t) (prev : Glow.Theme.t),
     Glow.Theme.background (Glow.applyPreset P prev) = Glow.Preset.background P
     ∧ Glow.Theme.clockText (Glow.applyPreset P prev) = Glow.Preset.clockText P
     ∧ Glow.Theme.dateText (Glow.applyPreset P prev) = Glow.Preset.dateText P
     ∧ Glow.Theme.accent (Glow.applyPreset P prev) = Glow.Preset.accent P
     ∧ ∀ prev', Glow.applyPreset P prev' = Glow.applyPreset P prev).
Proof. split; intros P prev; split_and!; reflexivity. Qed.

(** A theme edited field by field keeps nothing of the edits once a preset
    is applied. *)
Example applyPreset_after_edits :
  Glow.applyPreset (Glow.Preset.mk "Matrix" "#000000" "#00ff00" "#008f00" "#00ff00")
    (Glow.handleColorChange Glow.accent "#123456"
       (Glow.handleColorChange Glow.background "#abcdef" Glow.initialTheme))
  = Glow.Theme.mk "#000000" "#00ff00" "#008f00" "#00ff00".
Proof. reflexivity. Qed.

(** ** Time zones *)

(** C2: for an identifier the host's time-zone database does not know, the
    per-time-zone formatter ends in the host's [RangeError] for an invalid
    time zone, in both variants and at every instant; it returns no string,
    for this or any other zone. *)
Theorem formatTimeForTimezone_unknown_zone_throws
    (tzdb : string → option (Z → Z)) (s : State) (z : string) :
  tzdb z = None →
  Card.formatTimeForTimezone tzdb s z
    = inl (RangeError ("Invalid time zone specified: " +:+ z))
  ∧ Glow.formatTimeForTimezone tzdb s z
    = inl (RangeError ("Invalid time zone specified: " +:+ z))
  ∧ (∀ v, Card.formatTimeForTimezone tzdb s z ≠ inr v)
  ∧ (∀ v, Glow.formatTimeForTimezone tzdb s z ≠ inr v).
Proof.
  intros Hunknown.
  unfold Card.formatTimeForTimezone, Glow.formatTimeForTimezone,
    toLocaleTimeString.
  rewrite Hunknown. split_and!; done.
Qed.

(** C2 with a database that knows Tokyo (UTC+9, no daylight saving) and
    nothing else. *)
Lemma formatTimeForTimezone_unknown_zone_throws_witness :
  let tzdb := λ z : string,
    if decide (z = "Asia/Tokyo") then Some (λ _ : Z, 540) else None in
  let s := initialState 1700000000000 Card.initialWorldClocks in
  Card.formatTimeForTimezone tzdb s "Mars/Olympus_Mons"
    = inl (RangeError "Invalid time zone specified: Mars/Olympus_Mons")
  ∧ Card.formatTimeForTimezone tzdb s "Asia/Tokyo" = inr "07:13"
  ∧ Glow.formatTimeForTimezone tzdb s "Asia/Tokyo" = inr "07:13 AM".
Proof.
  intros tzdb s.
  split; [| split; vm_compute; reflexivity].
  apply (formatTimeForTimezone_unknown_zone_throws tzdb s "Mars/Olympus_Mons").
  vm_compute. reflexivity.
Defined.

(** ** Location badge *)

Lemma replaceAll_none pattern replacement s :
  occurrences pattern s = 0%nat → replaceAll pattern replacement s = s.
Proof.
  induction s as [| c rest IH]; simpl; [done |].
  case_decide; [done |]. intros Hocc. by rewrite IH.
Qed.

Lemma replace_at_most_one pattern replacement s :
  (occurrences pattern s ≤ 1)%nat →
  Glow.replace pattern (String replacement EmptyString) s
  = replaceAll pattern replacement s.
Proof.
  induction s as [| c rest IH]; simpl; [done |].
  case_decide; simpl; intros Hocc.
  - rewrite replaceAll_none by lia. done.
  - by rewrite IH.
Qed.

(** C8, as the code has it: without geolocation support the badge reads
    ['Location not supported'] and the time zone is not consulted.  With
    geolocation supported, when the position request fails or the
    reverse-geocoding request fails (the fetch or the decoding of its
    reply), the badge falls back to the viewer's time-zone name, which for
    a name with at most one underscore is that name with the underscore
    turned into a space. *)
Theorem locationName_fallback timeZone geo :
  Glow.locationName timeZone Glow.NotSupported = "Location not supported"
  ∧ (geo = Glow.PositionError
     ∨ geo = Glow.Position Glow.FetchRejected
     ∨ geo = Glow.Position Glow.JsonRejected →
     (occurrences "_" timeZone ≤ 1)%nat →
     Glow.locationName timeZone geo = replaceAll "_" " " timeZone).
Proof.
  split; [reflexivity |].
  intros Hfail Hocc.
  rewrite <- (replace_at_most_one "_" " " timeZone Hocc).
  by destruct Hfail as [-> | [-> | ->]].
Qed.

(** C8 for a viewer in New York whose position request is denied. *)
Lemma locationName_fallback_witness :
  Glow.locationName "America/New_York" Glow.PositionError = "America/New York".
Proof.
  apply (locationName_fallback "America/New_York" Glow.PositionError).
  - left. reflexivity.
  - vm_compute. lia.
Defined.

(** C8 as stated fails: a browser without geolocation is a failed lookup,
    and the badge then does not show the time-zone name. *)
Lemma locationName_unsupported_no_fallback :
  Glow.locationName "America/New_York" Glow.NotSupported
  ≠ replaceAll "_" " " "America/New_York".
Proof. vm_compute. intros Heq. discriminate Heq. Qed.

(** [String.prototype.replace] with a string pattern stops at the first
    match: a name with two underscores keeps its second one. *)
Example locationName_second_underscore :
  Glow.locationName "America/Port_of_Spain" Glow.PositionError
  = "America/Port of_Spain".
Proof. reflexivity. Qed.

(** A reply that decodes but names no place is not a failure for the code:
    the time zone is not consulted. *)
Example locationName_empty_reply :
  Glow.locationName "Europe/Paris"
    (Glow.Position (Glow.JsonParsed (Glow.mkGeoData None None None None)))
  = "Unknown Location, ".
Proof. reflexivity. Qed.

(** * More of the component *)

(** ** Clock face (card variant) *)

Lemma padStart_two_digits n :
  0 ≤ n < 100 → padStart 2 "0" (toString n) = twoDigits n.
Proof.
  intros Hn.
  assert (Hall : Forall (λ k, padStart 2 "0" (toString k) = twoDigits k)
                        (seqZ 0 100)).
  { apply (bool_decide_unpack _). vm_compute. exact I. }
  rewrite Forall_forall in Hall. apply Hall, elem_of_seqZ. lia.
Qed.

Lemma digitChar_inj a b :
  0 ≤ a < 10 → 0 ≤ b < 10 → digitChar a = digitChar b → a = b.
Proof.
  intros Ha Hb Heq. unfold digitChar in Heq.
  apply (f_equal nat_of_ascii) in Heq.
  rewrite !nat_ascii_embedding in Heq by lia. lia.
Qed.

Lemma twoDigits_inj a b :
  0 ≤ a < 100 → 0 ≤ b < 100 → twoDigits a = twoDigits b → a = b.
Proof.
  intros Ha Hb Heq. unfold twoDigits in Heq.
  injection Heq as Htens Hunits.
  apply digitChar_inj in Htens; [| Z.div_mod_to_equations; lia ..].
  apply digitChar_inj in Hunits; [| Z.div_mod_to_equations; lia ..].
  Z.div_mod_to_equations. lia.
Qed.

Lemma length_append (a b : string) :
  String.length (a +:+ b) = (String.length a + String.length b)%nat.
Proof. induction a as [| c a IH]; simpl; [done | by rewrite IH]. Qed.

(** X1: with the getters in their ranges, the seconds are shown as
    exactly their two decimal digits (a leading zero below ten) and the
    time as two digits, a colon, two digits; different seconds, or
    different hours and minutes, never show the same text. *)
Theorem clock_face_two_digits d d' :
  Date.inRange d → Date.inRange d' →
  Card.getSeconds d = twoDigits (Date.getSeconds d)
  ∧ Card.getTime d
    = twoDigits (Date.getHours d) +:+ ":" +:+ twoDigits (Date.getMinutes d)
  ∧ String.length (Card.getSeconds d) = 2%nat
  ∧ String.length (Card.getTime d) = 5%nat
  ∧ (Card.getSeconds d = Card.getSeconds d' →
     Date.getSeconds d = Date.getSeconds d')
  ∧ (Card.getTime d = Card.getTime d' →
     Date.getHours d = Date.getHours d'
     ∧ Date.getMinutes d = Date.getMinutes d').
Proof.
  intros (_ & _ & _ & Hh & Hm & Hs) (_ & _ & _ & Hh' & Hm' & Hs').
  unfold Card.getSeconds, Card.getTime.
  rewrite !padStart_two_digits by lia.
  split_and!; try reflexivity.
  - intros Heq. apply twoDigits_inj in Heq; [done | lia | lia].
  - unfold twoDigits. simpl. intros Heq.
    injection Heq as Hh1 Hh2 Hm1 Hm2.
    apply digitChar_inj in Hh1, Hh2, Hm1, Hm2;
      Z.div_mod_to_equations; lia.
Qed.

(** X1 at 07:05:09 and at 19:05:10. *)
Lemma clock_face_two_digits_witness :
  let d := Date.mk 2023 10 14 2 7 5 9 in
  let d' := Date.mk 2023 10 14 2 19 5 10 in
  Card.getSeconds d = "09"
  ∧ Card.getTime d = "07:05"
  ∧ Card.getSeconds d ≠ Card.getSeconds d'
  ∧ Card.getTime d ≠ Card.getTime d'.
Proof.
  intros d d'.
  assert (Hd : Date.inRange d) by (unfold Date.inRange; simpl; lia).
  assert (Hd' : Date.inRange d') by (unfold Date.inRange; simpl; lia).
  pose proof (clock_face_two_digits d d' Hd Hd')
    as (Hsec & Htime & _ & _ & Hsinj & Htinj).
  split_and!; [exact Hsec | exact Htime | |].
  - intros Heq. apply Hsinj in Heq. simpl in Heq. lia.
  - intros Heq. apply Htinj in Heq as [Heq _]. simpl in Heq. lia.
Defined.

Lemma length_pretty_N_go_ge (x : N) : ∀ s,
  (String.length s ≤ String.length (pretty_N_go x s))%nat.
Proof.
  induction (N.lt_wf_0 x) as [x _ IH]; intros s.
  destruct (decide (0 < x)%N) as [Hpos | Hzero].
  - rewrite pretty_N_go_step by done.
    etrans; [| apply IH; by apply N.div_lt]. simpl. lia.
  - replace x with 0%N by lia. by rewrite pretty_N_go_0.
Qed.

(** A positive number of [k + 1] decimal digits prints as [k + 1]
    characters; one that is at least [10 ^ k] as at least that many. *)
Lemma length_pretty_N_go_digits (k : nat) : ∀ (x : N) s,
  (10 ^ N.of_nat k ≤ x < 10 ^ N.of_nat (S k))%N →
  String.length (pretty_N_go x s) = (S k + String.length s)%nat.
Proof.
  induction k as [| k IH]; intros x s [Hlo Hhi].
  - change (10 ^ N.of_nat 0)%N with 1%N in Hlo.
    change (10 ^ N.of_nat 1)%N with 10%N in Hhi.
    rewrite pretty_N_go_step by lia.
    rewrite N.div_small by lia. by rewrite pretty_N_go_0.
  - rewrite Nat2N.inj_succ, N.pow_succ_r' in Hlo.
    rewrite (Nat2N.inj_succ (S k)), N.pow_succ_r' in Hhi.
    assert (0 < 10 ^ N.of_nat k)%N by (apply N.neq_0_lt_0, N.pow_nonzero; lia).
    rewrite pretty_N_go_step by lia.
    rewrite IH; [simpl; lia |]. split.
    + apply N.div_le_lower_bound; lia.
    + apply N.Div0.div_lt_upper_bound. lia.
Qed.

Lemma length_pretty_N_go_lower (k : nat) : ∀ (x : N) s,
  (10 ^ N.of_nat k ≤ x)%N →
  (S k + String.length s ≤ String.length (pretty_N_go x s))%nat.
Proof.
  induction k as [| k IH]; intros x s Hlo.
  - change (10 ^ N.of_nat 0)%N with 1%N in Hlo.
    rewrite pretty_N_go_step by lia.
    etrans; [| apply length_pretty_N_go_ge]. simpl. lia.
  - rewrite Nat2N.inj_succ, N.pow_succ_r' in Hlo.
    assert (0 < 10 ^ N.of_nat k)%N by (apply N.neq_0_lt_0, N.pow_nonzero; lia).
    rewrite pretty_N_go_step by lia.
    etrans; [| apply IH; apply N.div_le_lower_bound; lia]. simpl. lia.
Qed.

Lemma length_pretty_pos (p : positive) :
  String.length (pretty (N.pos p)) = 4%nat ↔ (1000 ≤ N.pos p ≤ 9999)%N.
Proof.
  unfold pretty, pretty_N. rewrite decide_False by done.
  set (x := N.pos p). assert (Hx : (1 ≤ x)%N) by lia. clearbody x.
  assert (Hcase : (1 ≤ x < 10 ∨ 10 ≤ x < 100 ∨ 100 ≤ x < 1000
                   ∨ 1000 ≤ x < 10000 ∨ 10000 ≤ x)%N) by lia.
  destruct Hcase as [Hr | [Hr | [Hr | [Hr | Hr]]]].
  - rewrite (length_pretty_N_go_digits 0) by done. simpl. lia.
  - rewrite (length_pretty_N_go_digits 1) by done. simpl. lia.
  - rewrite (length_pretty_N_go_digits 2) by done. simpl. lia.
  - rewrite (length_pretty_N_go_digits 3) by done. simpl. lia.
  - pose proof (length_pretty_N_go_lower 4 x "" Hr) as Hlen. simpl in Hlen. lia.
Qed.

(** The numbers that print as four characters. *)
Lemma length_toString_four y :
  String.length (toString y) = 4%nat
  ↔ 1000 ≤ y ≤ 9999 ∨ -999 ≤ y ≤ -100.
Proof.
  destruct y as [| p | p].
  - simpl. split; [discriminate | lia].
  - unfold toString, pretty, pretty_Z, pretty at 1, pretty_positive.
    rewrite length_pretty_pos. lia.
  - unfold toString, pretty, pretty_Z, pretty at 1, pretty_positive.
    simpl String.length.
    unfold pretty, pretty_N. rewrite decide_False by done.
    set (x := N.pos p). assert (Hx : (1 ≤ x)%N) by lia.
    assert (Hz : Z.neg p = - Z.of_N x) by (unfold x; lia). rewrite Hz.
    clearbody x.
    change ("" +:+ pretty_N_go x "") with (pretty_N_go x "").
    assert (Hcase : (1 ≤ x < 10 ∨ 10 ≤ x < 100 ∨ 100 ≤ x < 1000
                     ∨ 1000 ≤ x)%N) by lia.
    destruct Hcase as [Hr | [Hr | [Hr | Hr]]].
    + rewrite (length_pretty_N_go_digits 0) by done. simpl. lia.
    + rewrite (length_pretty_N_go_digits 1) by done. simpl. lia.
    + rewrite (length_pretty_N_go_digits 2) by done. simpl. lia.
    + pose proof (length_pretty_N_go_lower 3 x "" Hr) as Hlen.
      simpl in Hlen. lia.
Qed.

(** X2: with the getters in their ranges the date reads year, dash,
    month, dash, day, where the month is counted from one (January is 01,
    December 12) and month and day always take two digits; the year is
    printed as it is, unpadded and with its sign, so the text has ten
    characters if and only if the year prints as four: from 1000 to 9999
    or from -999 to -100. *)
Theorem getDate_shape d :
  Date.inRange d →
  Card.getDate d
    = toString (Date.getFullYear d) +:+ "-"
      +:+ twoDigits (Date.getMonth d + 1) +:+ "-"
      +:+ twoDigits (Date.getDate d)
  ∧ 1 ≤ Date.getMonth d + 1 ≤ 12
  ∧ String.length (Card.getDate d)
    = (String.length (toString (Date.getFullYear d)) + 6)%nat
  ∧ (String.length (Card.getDate d) = 10%nat
     ↔ 1000 ≤ Date.getFullYear d ≤ 9999 ∨ -999 ≤ Date.getFullYear d ≤ -100).
Proof.
  intros (Hmo & Hda & _).
  unfold Card.getDate. rewrite !padStart_two_digits by lia.
  assert (Hlen : String.length
            (toString (Date.getFullYear d) +:+ "-"
             +:+ twoDigits (Date.getMonth d + 1) +:+ "-"
             +:+ twoDigits (Date.getDate d))
          = (String.length (toString (Date.getFullYear d)) + 6)%nat).
  { rewrite length_append. simpl. lia. }
  split_and!; [reflexivity | lia | lia | exact Hlen |].
  rewrite Hlen, <- length_toString_four. lia.
Qed.

(** X2 on 5 January 2024, and on 5 January of the years 999 and -999. *)
Lemma getDate_shape_witness :
  Card.getDate (Date.mk 2024 0 5 5 0 0 0) = "2024-01-05"
  ∧ String.length (Card.getDate (Date.mk 2024 0 5 5 0 0 0)) = 10%nat
  ∧ String.length (Card.getDate (Date.mk 999 0 5 5 0 0 0)) ≠ 10%nat
  ∧ String.length (Card.getDate (Date.mk (-999) 0 5 5 0 0 0)) = 10%nat.
Proof.
  assert (Hr : ∀ y, Date.inRange (Date.mk y 0 5 5 0 0 0))
    by (intros y; unfold Date.inRange; simpl; lia).
  pose proof (getDate_shape _ (Hr 2024)) as (Hshape & _ & _ & Hten).
  pose proof (getDate_shape _ (Hr 999)) as (_ & _ & _ & Hshort).
  pose proof (getDate_shape _ (Hr (-999))) as (_ & _ & _ & Hneg).
  split_and!.
  - exact Hshape.
  - apply Hten. simpl. lia.
  - intros Hlen. apply Hshort in Hlen. simpl in Hlen. lia.
  - apply Hneg. simpl. lia.
Defined.

(** X3: the weekday is defined exactly when the day index is between 0
    and 6; it is then one of the seven three-letter names, a different
    one for each day, and [undefined] for any other index. *)
Theorem getDay_total_in_range d d' :
  (0 ≤ Date.getDay d ≤ 6 →
     ∃ name, Card.getDay d = Some name ∧ name ∈ Card.days
             ∧ String.length name = 3%nat)
  ∧ (Date.getDay d < 0 ∨ 6 < Date.getDay d → Card.getDay d = None)
  ∧ (0 ≤ Date.getDay d ≤ 6 → 0 ≤ Date.getDay d' ≤ 6 →
     Card.getDay d = Card.getDay d' → Date.getDay d = Date.getDay d').
Proof.
  assert (Hcase : ∀ k, 0 ≤ k ≤ 6 →
            k = 0 ∨ k = 1 ∨ k = 2 ∨ k = 3 ∨ k = 4 ∨ k = 5 ∨ k = 6) by lia.
  unfold Card.getDay. split_and!.
  - intros Hr. rewrite decide_True by lia.
    destruct (Hcase _ Hr) as [-> | [-> | [-> | [-> | [-> | [-> | ->]]]]]];
      simpl; eexists; (split_and!; [reflexivity | | reflexivity]);
      unfold Card.days;
      repeat first [apply list_elem_of_here | apply list_elem_of_further].
  - intros [Hneg | Hbig].
    + by rewrite decide_False by lia.
    + rewrite decide_True by lia. apply lookup_ge_None. simpl. lia.
  - intros Hr Hr'. rewrite !decide_True by lia.
    destruct (Hcase _ Hr) as [-> | [-> | [-> | [-> | [-> | [-> | ->]]]]]];
      destruct (Hcase _ Hr') as [-> | [-> | [-> | [-> | [-> | [-> | ->]]]]]];
      simpl; intros Heq; try reflexivity; discriminate Heq.
Qed.

(** X3 on a Tuesday. *)
Lemma getDay_total_in_range_witness :
  Card.getDay (Date.mk 2023 10 14 2 22 13 20) = Some "TUE"
  ∧ Card.getDay (Date.mk 2023 10 14 7 22 13 20) = None.
Proof.
  pose proof (getDay_total_in_range
                (Date.mk 2023 10 14 7 22 13 20)
                (Date.mk 2023 10 14 2 22 13 20)) as (_ & Hout & _).
  split; [reflexivity |]. apply Hout. simpl. lia.
Defined.

(** ** Theme edits *)

(** X4: a colour edit writes the chosen field and no other, in both
    variants; of two edits of the same field the later one wins, and edits
    of different fields can be made in either order. *)
Theorem handleColorChange_one_field :
  (∀ (k k' : Card.Key) (v v' : string) (t : Card.Theme.t),
     Card.read k (Card.handleColorChange k v t) = Some v
     ∧ (k' ≠ k → Card.read k' (Card.handleColorChange k v t) = Card.read k' t)
     ∧ Card.handleColorChange k v' (Card.handleColorChange k v t)
       = Card.handleColorChange k v' t
     ∧ (k' ≠ k →
        Card.handleColorChange k v (Card.handleColorChange k' v' t)
        = Card.handleColorChange k' v' (Card.handleColorChange k v t)))
  ∧ (∀ (k k' : Glow.Key) (v v' : string) (t : Glow.Theme.t),
     Glow.read k (Glow.handleColorChange k v t) = v
     ∧ (k' ≠ k → Glow.read k' (Glow.handleColorChange k v t) = Glow.read k' t)
     ∧ Glow.handleColorChange k v' (Glow.handleColorChange k v t)
       = Glow.handleColorChange k v' t
     ∧ (k' ≠ k →
        Glow.handleColorChange k v (Glow.handleColorChange k' v' t)
        = Glow.handleColorChange k' v' (Glow.handleColorChange k v t))).
Proof.
  split; intros k k' v v' t; split_and!;
    try (by destruct k);
    intros Hne; destruct k, k'; done.
Qed.

(** X4 on the glow theme: editing the accent leaves the background alone. *)
Lemma handleColorChange_one_field_witness :
  Glow.read Glow.background
    (Glow.handleColorChange Glow.accent "#ff0000" Glow.initialTheme)
  = "#1a1a1a".
Proof.
  pose proof handleColorChange_one_field as [_ Hglow].
  destruct (Hglow Glow.accent Glow.background "#ff0000" "" Glow.initialTheme)
    as (_ & Hframe & _ & _).
  apply Hframe. discriminate.
Defined.

(** X5: after a preset from the list is applied, the check mark is on
    that preset's button and on no other button, whatever the theme was;
    in the card variant the page background is then unset, a picked one
    included. *)
Theorem applyPreset_marks_one_preset :
  (∀ p q prev, p ∈ Card.presets → q ∈ Card.presets →
     (Card.isSelected (Card.applyPreset p prev) q ↔ q = p)
     ∧ Card.Theme.background (Card.applyPreset p prev) = None)
  ∧ (∀ p q prev, p ∈ Glow.presets → q ∈ Glow.presets →
     (Glow.isSelected (Glow.applyPreset p prev) q ↔ q = p)).
Proof.
  split; intros p q prev Hp Hq.
  - unfold Card.presets in Hp, Hq.
    repeat (apply elem_of_cons in Hp as [-> | Hp]);
      try (by apply elem_of_nil in Hp);
      repeat (apply elem_of_cons in Hq as [-> | Hq]);
      try (by apply elem_of_nil in Hq);
      (split; [| reflexivity]);
      unfold Card.isSelected; rewrite bool_decide_spec; simpl;
      split; intros Heq; try reflexivity; discriminate Heq.
  - unfold Glow.presets in Hp, Hq.
    repeat (apply elem_of_cons in Hp as [-> | Hp]);
      try (by apply elem_of_nil in Hp);
      repeat (apply elem_of_cons in Hq as [-> | Hq]);
      try (by apply elem_of_nil in Hq);
      unfold Glow.isSelected; rewrite bool_decide_spec; simpl;
      split; intros Heq; try reflexivity; discriminate Heq.
Qed.

(** X5 in the card variant: a picked page background is gone once Forest
    is applied, and Forest alone is marked. *)
Lemma applyPreset_marks_one_preset_witness :
  let forest := Card.Preset.mk "Forest" None "#166534" "#bbf7d0" in
  let berry := Card.Preset.mk "Berry" None "#7c3aed" "#e9d5ff" in
  let picked := Card.handleColorChange Card.background "#000000"
                  Card.initialTheme in
  Card.Theme.background picked = Some "#000000"
  ∧ Card.Theme.background (Card.applyPreset forest picked) = None
  ∧ ¬ Card.isSelected (Card.applyPreset forest picked) berry.
Proof.
  intros forest berry picked.
  pose proof applyPreset_marks_one_preset as [Hcard _].
  assert (Hf : forest ∈ Card.presets).
  { do 2 apply list_elem_of_further. apply list_elem_of_here. }
  assert (Hb : berry ∈ Card.presets).
  { do 4 apply list_elem_of_further. apply list_elem_of_here. }
  destruct (Hcard forest berry picked Hf Hb) as [Hmark Hbg].
  split_and!; [reflexivity | exact Hbg |].
  intros Hsel. apply Hmark in Hsel. discriminate Hsel.
Defined.

(** X6: the settings modal of the glow variant has no picker for the date
    colour, so over any sequence of preset choices and colour edits made
    there the date colour is the initial one or that of a preset. *)
Theorem dateText_from_presets_only (actions : list Glow.Action) :
  Forall Glow.inSettingsModal actions →
  Glow.Theme.dateText (foldl Glow.act Glow.initialTheme actions)
  ∈ Glow.Theme.dateText Glow.initialTheme
    :: (Glow.Preset.dateText <$> Glow.presets).
Proof.
  set (allowed := Glow.Theme.dateText Glow.initialTheme
                  :: (Glow.Preset.dateText <$> Glow.presets)).
  assert (Hgen : ∀ t, Glow.Theme.dateText t ∈ allowed →
            Forall Glow.inSettingsModal actions →
            Glow.Theme.dateText (foldl Glow.act t actions) ∈ allowed).
  { induction actions as [| a actions IH]; intros t Ht Hall; [done |].
    apply Forall_cons in Hall as [Ha Hall]. simpl. apply IH; [| done].
    destruct a as [preset | key value]; simpl in Ha |- *.
    - apply list_elem_of_further.
      by apply (list_elem_of_fmap_2 Glow.Preset.dateText).
    - by destruct key. }
  apply Hgen. apply list_elem_of_here.
Qed.

(** X6 on a session that edits every colour it can and applies Matrix in
    between. *)
Lemma dateText_from_presets_only_witness :
  Glow.Theme.dateText
    (foldl Glow.act Glow.initialTheme
       [ Glow.ColorChange Glow.background "#101010";
         Glow.ApplyPreset
           (Glow.Preset.mk "Matrix" "#000000" "#00ff00" "#008f00" "#00ff00");
         Glow.ColorChange Glow.accent "#ffffff";
         Glow.ColorChange Glow.clockText "#eeeeee" ])
  ∈ Glow.Theme.dateText Glow.initialTheme
    :: (Glow.Preset.dateText <$> Glow.presets).
Proof.
  apply dateText_from_presets_only.
  repeat apply Forall_cons_2; try apply Forall_nil_2; simpl; try discriminate.
  do 4 apply list_elem_of_further. apply list_elem_of_here.
Defined.

(** ** More of the visibility machine *)

Lemma commit_synced s : deps s = captured (effect s) → commit s = s.
Proof. intros Hs. unfold commit. by rewrite decide_True. Qed.

Lemma showControls_runEffect s : showControls (runEffect (cleanup s)) = true.
Proof. unfold runEffect, cleanup. by destruct (isFullscreen s) eqn:Hfs; simpl; rewrite ?Hfs. Qed.

(** While the controls are hidden no timeout is pending. *)
Lemma hidden_idle_commit s s' :
  (showControls s = false → timeout (effect s) = None) →
  effect s' = effect s →
  showControls s' = showControls s →
  showControls (commit s') = false → timeout (effect (commit s')) = None.
Proof.
  intros Hs Hef Hsc. unfold commit. case_decide.
  - rewrite Hef, Hsc. exact Hs.
  - by rewrite showControls_runEffect.
Qed.

Lemma hidden_idle_step e w :
  rendered (app w) →
  (showControls (app w) = false → timeout (effect (app w)) = None) →
  showControls (app (step e w)) = false →
  timeout (effect (app (step e w))) = None.
Proof.
  intros Hr Hs.
  destruct e; simpl; rewrite ?app_toggleFullscreen; try done;
    try (by apply (hidden_idle_commit (app w))).
  - unfold mouseMove. by destruct (listening (effect (app w))).
  - unfold elapse, timeoutCallback.
    destruct (timeout (effect (app w))) as [r |] eqn:Hr'; [| done].
    destruct (Z.of_N ms <? r); simpl.
    + intros Hsc. specialize (Hs Hsc). done.
    + by destruct (_ && _).
Qed.

Lemma hidden_idle_run es : ∀ w,
  rendered (app w) →
  (showControls (app w) = false → timeout (effect (app w)) = None) →
  showControls (app (run es w)) = false →
  timeout (effect (app (run es w))) = None.
Proof.
  induction es as [| e es IH]; intros w Hr Hs; [done |].
  rewrite run_cons. apply IH.
  - by apply rendered_step.
  - by apply hidden_idle_step.
Qed.

Lemma deps_quiet_run es : ∀ w,
  Forall quiet es → deps (app (run es w)) = deps (app w).
Proof.
  induction es as [| e es IH]; intros w Hq; [done |].
  apply Forall_cons in Hq as [He Hq]. rewrite run_cons, IH by done.
  destruct e; try done; simpl.
  - unfold tick. by rewrite deps_commit.
  - apply deps_elapse.
Qed.

Lemma visibility_from_deps s s' :
  deps s' = deps s →
  isFullscreen s' = isFullscreen s ∧ modalOpen s' = modalOpen s.
Proof.
  intros H. injection H as Hfs Hso Hac. unfold modalOpen.
  by rewrite Hfs, Hso, Hac.
Qed.

(** X7: outside fullscreen, in every state the component can reach, the
    controls are visible, no idle timeout is pending and the pointer
    listener is detached: a mouse move and the passing of time change
    nothing. *)
Theorem normal_state_is_inert now clocks es :
  let w := run es (initialWorld now clocks) in
  isFullscreen (app w) = false →
  visibility (app w) = Normal
  ∧ showControls (app w) = true
  ∧ timeout (effect (app w)) = None
  ∧ listening (effect (app w)) = false
  ∧ step MouseMove w = w
  ∧ ∀ ms, step (Elapse ms) w = w.
Proof.
  intros w Hfs.
  pose proof (rendered_reachable now clocks es) as (Hcap & Hlis & Hto & Hhid).
  fold w in Hcap, Hlis, Hto, Hhid.
  assert (Hsc : showControls (app w) = true).
  { destruct (showControls (app w)); [done |].
    destruct Hhid as [Hfs' _]; [done |]. congruence. }
  assert (Hl : listening (effect (app w)) = false) by congruence.
  split_and!; try done.
  - unfold visibility. by rewrite Hfs.
  - by apply Hto.
  - simpl. unfold onApp, mouseMove. rewrite Hl. by destruct w.
  - intros ms. simpl. unfold onApp, elapse. rewrite (Hto Hfs). by destruct w.
Qed.

(** X7 after fullscreen was entered and left again. *)
Lemma normal_state_is_inert_witness :
  let w := run [ HostSetsFullscreen true; FullscreenChange; Elapse 1000;
                 HostSetsFullscreen false; FullscreenChange ]
               (initialWorld 0 Card.initialWorldClocks) in
  timeout (effect (app w)) = None
  ∧ step MouseMove w = w
  ∧ step (Elapse 3000) w = w.
Proof.
  intros w.
  pose proof (normal_state_is_inert 0 Card.initialWorldClocks
    [ HostSetsFullscreen true; FullscreenChange; Elapse 1000;
      HostSetsFullscreen false; FullscreenChange ]) as H.
  destruct H as (_ & _ & Hto & _ & Hmove & Htime); [vm_compute; reflexivity |].
  split_and!; [exact Hto | exact Hmove | exact (Htime 3000%N)].
Defined.

(** X8: in fullscreen a mouse move shows the controls and starts the idle
    period afresh, whatever was left of the previous one and whether or not
    the controls were hidden: the machine is in [FullscreenActive] and, no
    modal being up, the controls go exactly one idle period of quiet
    later. *)
Theorem mouseMove_restarts_idle_cycle now clocks es :
  let w := run es (initialWorld now clocks) in
  isFullscreen (app w) = true →
  visibility (app (step MouseMove w)) = FullscreenActive
  ∧ restartsIdleCycle (step MouseMove w).
Proof.
  intros w Hfs.
  assert (Hr : rendered (app w)) by apply rendered_reachable.
  assert (Hr' : rendered (app (step MouseMove w))) by by apply rendered_step.
  pose proof Hr as (_ & Hlis & _).
  assert (Hmm : app (step MouseMove w) = handleMouseMove (app w)).
  { simpl. unfold mouseMove. by rewrite Hlis, Hfs. }
  split.
  - rewrite Hmm. unfold visibility. simpl. by rewrite Hfs.
  - unfold restartsIdleCycle. rewrite Hmm at 1 2. split_and!; [done | done |].
    intros Hmod es' Hq. apply quiet_run_countdown; try done.
    + rewrite Hmm. exact Hfs.
    + by rewrite Hmm.
    + by rewrite Hmm.
Qed.

(** X8 from [FullscreenIdle]: a mouse move brings the controls back, and
    with the ticker running they are gone again 3000 ms later, not
    before. *)
Lemma mouseMove_restarts_idle_cycle_witness :
  let w := run [ HostSetsFullscreen true; FullscreenChange; Elapse 4000 ]
               (initialWorld 0 Card.initialWorldClocks) in
  visibility (app w) = FullscreenIdle
  ∧ visibility (app (step MouseMove w)) = FullscreenActive
  ∧ showControls (app (run [Elapse 2000; Tick 1; Elapse 999]
                           (step MouseMove w))) = true
  ∧ showControls (app (run [Elapse 2000; Tick 1; Elapse 1000]
                           (step MouseMove w))) = false.
Proof.
  intros w.
  pose proof (mouseMove_restarts_idle_cycle 0 Card.initialWorldClocks
    [ HostSetsFullscreen true; FullscreenChange; Elapse 4000 ]) as H.
  destruct H as (Hactive & _ & _ & Hcycle); [vm_compute; reflexivity |].
  split_and!; [vm_compute; reflexivity | exact Hactive | |].
  - apply (Hcycle eq_refl [Elapse 2000; Tick 1; Elapse 999]).
    repeat constructor.
  - apply (Hcycle eq_refl [Elapse 2000; Tick 1; Elapse 1000]).
    repeat constructor.
Defined.

(** X9: an event whose handler leaves the effect's dependencies at their
    values (the ticker, a removal, a fullscreen click, a host change not
    yet signalled, opening what is open, closing what is closed, an add
    with the prompt closed, a signal that reports the status the component
    has) leaves the pending idle timeout, the listener and the visibility
    of the controls exactly as they were. *)
Theorem keepsDependencies_keeps_timer now clocks es e :
  let w := run es (initialWorld now clocks) in
  keepsDependencies w e →
  effect (app (step e w)) = effect (app w)
  ∧ showControls (app (step e w)) = showControls (app w)
  ∧ deps (app (step e w)) = deps (app w).
Proof.
  intros w Hk.
  pose proof (rendered_reachable now clocks es) as (Hcap & _).
  fold w in Hcap.
  assert (Hsync : ∀ s', effect s' = effect (app w) →
            showControls s' = showControls (app w) →
            deps s' = deps (app w) →
            effect (commit s') = effect (app w)
            ∧ showControls (commit s') = showControls (app w)
            ∧ deps (commit s') = deps (app w)).
  { intros s' Hef Hsc Hd.
    rewrite commit_synced by (by rewrite Hef, Hcap). done. }
  destruct e; simpl in Hk |- *; try done;
    rewrite ?app_toggleFullscreen; try done;
    apply Hsync; try done; unfold deps; simpl; by rewrite Hk.
Qed.

(** X9 with two seconds left on the idle timeout: ticks, a removal and a
    second click on the open settings button do not touch it. *)
Lemma keepsDependencies_keeps_timer_witness :
  let w := run [ HostSetsFullscreen true; FullscreenChange; OpenSettings;
                 Elapse 1000 ]
               (initialWorld 0 Glow.initialWorldClocks) in
  timeout (effect (app w)) = Some 2000
  ∧ effect (app (step OpenSettings w)) = effect (app w)
  ∧ effect (app (step (RemoveWorldClock "1") w)) = effect (app w).
Proof.
  intros w. split; [vm_compute; reflexivity |].
  split.
  - apply (keepsDependencies_keeps_timer 0 Glow.initialWorldClocks
      [ HostSetsFullscreen true; FullscreenChange; OpenSettings; Elapse 1000 ]
      OpenSettings).
    vm_compute. reflexivity.
  - apply (keepsDependencies_keeps_timer 0 Glow.initialWorldClocks
      [ HostSetsFullscreen true; FullscreenChange; OpenSettings; Elapse 1000 ]
      (RemoveWorldClock "1")).
    exact I.
Defined.

(** X10: whenever the controls are hidden the display is in fullscreen,
    no modal is up and no timeout is pending; the ticker and the passing
    of time never bring them back. *)
Theorem hidden_controls_stay_hidden now clocks es :
  let w := run es (initialWorld now clocks) in
  showControls (app w) = false →
  visibility (app w) = FullscreenIdle
  ∧ modalOpen (app w) = false
  ∧ timeout (effect (app w)) = None
  ∧ ∀ es', Forall quiet es' → showControls (app (run es' w)) = false.
Proof.
  intros w Hsc.
  assert (Hr : rendered (app w)) by apply rendered_reachable.
  pose proof Hr as (_ & _ & _ & Hhid).
  destruct (Hhid Hsc) as [Hfs Hmod].
  assert (Hto : timeout (effect (app w)) = None).
  { apply hidden_idle_run; [apply rendered_initialState | | done].
    simpl. unfold runEffect. simpl. discriminate. }
  split_and!; try done.
  - unfold visibility. by rewrite Hfs, Hsc.
  - intros es' Hq. by rewrite quiet_run_no_timeout.
Qed.

(** X10 after the idle period has passed in fullscreen. *)
Lemma hidden_controls_stay_hidden_witness :
  let w := run [ HostSetsFullscreen true; FullscreenChange; Elapse 3000 ]
               (initialWorld 0 Card.initialWorldClocks) in
  visibility (app w) = FullscreenIdle
  ∧ showControls (app (run [Elapse 60000; Tick 60000; Elapse 1] w)) = false.
Proof.
  intros w.
  pose proof (hidden_controls_stay_hidden 0 Card.initialWorldClocks
    [ HostSetsFullscreen true; FullscreenChange; Elapse 3000 ]) as H.
  destruct H as (Hidle & _ & _ & Hstay); [vm_compute; reflexivity |].
  split; [exact Hidle |].
  apply Hstay. repeat constructor.
Defined.

(** X11: in fullscreen, opening the settings modal or the add prompt
    brings the machine to [FullscreenActive] at once, also from
    [FullscreenIdle], and the ticker and the passing of time do not hide
    the controls afterwards. *)
Theorem opening_modal_shows_controls now clocks es :
  let w := run es (initialWorld now clocks) in
  isFullscreen (app w) = true →
  (visibility (app (step OpenSettings w)) = FullscreenActive
   ∧ ∀ es', Forall quiet es' →
       showControls (app (run es' (step OpenSettings w))) = true)
  ∧ (visibility (app (step OpenAddClock w)) = FullscreenActive
     ∧ ∀ es', Forall quiet es' →
         showControls (app (run es' (step OpenAddClock w))) = true).
Proof.
  intros w Hfs.
  assert (Hr : rendered (app w)) by apply rendered_reachable.
  assert (Hgen : ∀ e, isFullscreen (app (step e w)) = true →
            modalOpen (app (step e w)) = true →
            visibility (app (step e w)) = FullscreenActive
            ∧ ∀ es', Forall quiet es' →
                showControls (app (run es' (step e w))) = true).
  { intros e Hfs' Hmod'.
    assert (Hr' : rendered (app (step e w))) by by apply rendered_step.
    split.
    - unfold visibility. by rewrite Hfs', (rendered_visible _ Hr' Hfs' Hmod').
    - intros es' Hq.
      destruct (visibility_from_deps _ _ (deps_quiet_run es' (step e w) Hq))
        as [Hfs2 Hmod2].
      apply rendered_visible; [by apply rendered_run | congruence | congruence]. }
  split; apply Hgen; simpl.
  - unfold clickSettings. by rewrite isFullscreen_commit.
  - unfold clickSettings, modalOpen.
    pose proof (deps_commit (setIsSettingsOpen true (app w))) as H.
    injection H as _ H _. by rewrite H.
  - unfold clickAddClock. by rewrite isFullscreen_commit.
  - unfold clickAddClock, modalOpen.
    pose proof (deps_commit (setIsAddingClock true (app w))) as H.
    injection H as _ _ H. rewrite H. apply orb_true_r.
Qed.

(** X11 from [FullscreenIdle]. *)
Lemma opening_modal_shows_controls_witness :
  let w := run [ HostSetsFullscreen true; FullscreenChange; Elapse 3000 ]
               (initialWorld 0 Card.initialWorldClocks) in
  visibility (app w) = FullscreenIdle
  ∧ visibility (app (step OpenAddClock w)) = FullscreenActive
  ∧ showControls (app (run [Elapse 10000] (step OpenAddClock w))) = true.
Proof.
  intros w.
  pose proof (opening_modal_shows_controls 0 Card.initialWorldClocks
    [ HostSetsFullscreen true; FullscreenChange; Elapse 3000 ]) as H.
  destruct H as (_ & Hactive & Hstay); [vm_compute; reflexivity |].
  split_and!; [vm_compute; reflexivity | exact Hactive |].
  apply Hstay. repeat constructor.
Defined.

(** X12: a granted fullscreen click followed by the host's signal sets
    [isFullscreen] to the opposite of the host's status before the click,
    whatever the component believed; two such rounds bring host and
    component back to that status.  After a declined click the signal, if
    one comes, leaves [isFullscreen] at the host's unchanged status. *)
Theorem toggle_then_signal_flips w :
  let flip := [ClickFullscreen Granted; FullscreenChange] in
  fullscreenElement (host (run flip w)) = negb (fullscreenElement (host w))
  ∧ isFullscreen (app (run flip w)) = negb (fullscreenElement (host w))
  ∧ fullscreenElement (host (run (flip ++ flip) w))
    = fullscreenElement (host w)
  ∧ isFullscreen (app (run (flip ++ flip) w)) = fullscreenElement (host w)
  ∧ ∀ err, isFullscreen
             (app (run [ClickFullscreen (Rejected err); FullscreenChange] w))
           = fullscreenElement (host w).
Proof.
  assert (Hone : ∀ w',
            fullscreenElement
              (host (run [ClickFullscreen Granted; FullscreenChange] w'))
            = negb (fullscreenElement (host w'))
            ∧ isFullscreen
                (app (run [ClickFullscreen Granted; FullscreenChange] w'))
              = negb (fullscreenElement (host w'))).
  { intros w'. unfold run. simpl. unfold toggleFullscreen.
    rewrite isFullscreen_commit.
    destruct (fullscreenElement (host w')); split; reflexivity. }
  intros flip. destruct (Hone w) as [Hh Ha]. split_and!; [done | done | | |].
  - unfold run. rewrite foldl_app. fold (run flip w).
    fold (run flip (run flip w)).
    destruct (Hone (run flip w)) as [Hh2 _]. unfold flip in *.
    rewrite Hh2, Hh. apply negb_involutive.
  - unfold run. rewrite foldl_app. fold (run flip w).
    fold (run flip (run flip w)).
    destruct (Hone (run flip w)) as [_ Ha2]. unfold flip in *.
    rewrite Ha2, Hh. apply negb_involutive.
  - intros err. unfold run. simpl. unfold toggleFullscreen.
    rewrite isFullscreen_commit.
    destruct (fullscreenElement (host w)) eqn:Hf; simpl; by rewrite ?Hf.
Qed.

(** ** More of the registry *)

Lemma availableTimezones_ext s s' :
  worldClocks s' = worldClocks s → availableTimezones s' = availableTimezones s.
Proof. intros H. by rewrite !availableTimezones_spec, H. Qed.

Lemma isAddingClock_commit s : isAddingClock (commit s) = isAddingClock s.
Proof. pose proof (deps_commit s) as H. by injection H. Qed.

Lemma addButtonRendered_available s :
  addButtonRendered s ↔ availableTimezones s ≠ [].
Proof.
  unfold addButtonRendered.
  destruct (worldClocks s) as [| c clocks] eqn:Hwc.
  - assert (Hall : availableTimezones s = popularTimezones).
    { rewrite availableTimezones_spec, Hwc. reflexivity. }
    rewrite Hall. simpl. split; [discriminate | intros _; exact I].
  - simpl. rewrite orb_false_r.
    destruct (availableTimezones s) as [| tz tzs]; simpl.
    + split; [intros [] | intros H; by destruct H].
    + split; [discriminate | intros _; exact I].
Qed.

(** X13: in every state the add prompt can be opened exactly when there
    is something left to add: one of the two buttons that open it is
    rendered if and only if the available list is not empty.  The list
    itself is the catalog in catalog order with entries left out, it does
    not grow by an add and does not shrink by a removal. *)
Theorem add_prompt_reachable_iff_available s :
  (addButtonRendered s ↔ availableTimezones s ≠ [])
  ∧ availableTimezones s `sublist_of` popularTimezones
  ∧ (∀ now timezone label,
       availableTimezones (addWorldClock now timezone label s)
       ⊆ availableTimezones s)
  ∧ (∀ id, availableTimezones s
           ⊆ availableTimezones (removeWorldClock id s)).
Proof.
  split_and!.
  - apply addButtonRendered_available.
  - unfold availableTimezones. apply sublist_filter.
  - intros now timezone label tz.
    rewrite !elem_of_availableTimezones, timezones_addWorldClock.
    intros [Hcat Hout]. split; [done |].
    intros Hin. apply Hout, elem_of_app. by left.
  - intros id tz. rewrite !elem_of_availableTimezones.
    intros [Hcat Hout]. split; [done |].
    intros Hin. by apply Hout, (timezones_removeWorldClock id).
Qed.

Lemma length_filter_id_unique id clocks :
  NoDup (WorldClock.id <$> clocks) →
  id ∈ WorldClock.id <$> clocks →
  S (length (filter (λ c, WorldClock.id c ≠ id) clocks)) = length clocks.
Proof.
  induction clocks as [| c clocks IH]; simpl.
  - by intros _ ?%elem_of_nil.
  - rewrite NoDup_cons. intros [Hnotin Hnd] Hin.
    destruct (decide (WorldClock.id c = id)) as [Heq | Hne].
    + rewrite filter_cons_False by (intros Hc; by apply Hc).
      rewrite filter_id_absent by (by rewrite <- Heq). done.
    + rewrite filter_cons_True by done. simpl. f_equal. apply IH; [done |].
      apply elem_of_cons in Hin as [Hin | Hin]; [congruence | done].
Qed.

(** X14: when the identifiers are pairwise distinct, removing an
    identifier that is present takes out exactly one entry.  Removals of
    two identifiers give the same registry in either order. *)
Theorem removeWorldClock_exactly_one id id' s :
  (NoDup (ids s) → id ∈ ids s →
   S (length (worldClocks (removeWorldClock id s))) = length (worldClocks s))
  ∧ worldClocks (removeWorldClock id (removeWorldClock id' s))
    = worldClocks (removeWorldClock id' (removeWorldClock id s)).
Proof.
  split.
  - intros Hnd Hin. rewrite worldClocks_removeWorldClock.
    by apply length_filter_id_unique.
  - rewrite !worldClocks_removeWorldClock, !list_filter_filter.
    apply list_filter_iff. intros c. tauto.
Qed.

(** X14 on the seeded registry of the glow variant. *)
Lemma removeWorldClock_exactly_one_witness :
  length (worldClocks (removeWorldClock "2"
                         (initialState 0 Glow.initialWorldClocks))) = 1%nat.
Proof.
  pose proof (removeWorldClock_exactly_one "2" "1"
                (initialState 0 Glow.initialWorldClocks)) as [Hone _].
  apply eq_add_S. rewrite Hone; [reflexivity | |].
  - vm_compute. apply NoDup_cons. split; [| apply NoDup_singleton].
    intros [=]%list_elem_of_singleton.
  - vm_compute. apply list_elem_of_further, list_elem_of_here.
Defined.

(** ** Runs through the view *)

Lemma registry_frame e w :
  match e with
  | AddWorldClock _ _ _ | RemoveWorldClock _ | OpenAddClock | CloseAddClock =>
      False
  | _ => True
  end →
  worldClocks (app (step e w)) = worldClocks (app w)
  ∧ isAddingClock (app (step e w)) = isAddingClock (app w).
Proof.
  intros He. split; [rewrite worldClocks_step; by destruct e |].
  destruct e; try done; simpl;
    rewrite ?app_toggleFullscreen; try done;
    unfold tick, clickSettings; rewrite ?isAddingClock_commit; try done.
  - unfold mouseMove. by destruct (listening (effect (app w))).
  - pose proof (deps_elapse ms (app w)) as H. by injection H.
Qed.

Lemma NoDup_catalog_timezones :
  NoDup (TimezoneOption.timezone <$> popularTimezones).
Proof. apply (bool_decide_unpack _). vm_compute. exact I. Qed.

(** A registry of distinct catalog time zones and the available list
    split the catalog between them. *)
Lemma available_complement_length s :
  NoDup (timezones s) →
  (∀ c, c ∈ worldClocks s →
        TimezoneOption.mk (WorldClock.timezone c) (WorldClock.label c)
        ∈ popularTimezones) →
  (length (availableTimezones s) + length (worldClocks s)
   = length popularTimezones)%nat.
Proof.
  intros Hnd Hcat.
  set (held := λ tz : TimezoneOption.t,
                 TimezoneOption.timezone tz ∈ timezones s).
  assert (Hsplit : (length (filter (λ tz, ¬ held tz) popularTimezones)
                    + length (filter held popularTimezones)
                    = length popularTimezones)%nat).
  { rewrite <- (Permutation_length (filter_app_complement held popularTimezones)).
    rewrite length_app. lia. }
  assert (Hheld : length (filter held popularTimezones)
                  = length (worldClocks s)).
  { rewrite <- (length_fmap TimezoneOption.timezone).
    rewrite <- (length_fmap WorldClock.timezone (worldClocks s)).
    apply Permutation_length, NoDup_Permutation; [| done |].
    - eapply sublist_NoDup; [apply NoDup_catalog_timezones |].
      apply fmap_sublist, sublist_filter.
    - intros z. split.
      + intros (tz & -> & Htz)%list_elem_of_fmap.
        by apply list_elem_of_filter in Htz as [Hh _].
      + intros Hz. pose proof Hz as (c & -> & Hc)%list_elem_of_fmap.
        apply list_elem_of_fmap.
        exists (TimezoneOption.mk (WorldClock.timezone c) (WorldClock.label c)).
        split; [done |]. apply list_elem_of_filter. split; [exact Hz |].
        by apply Hcat. }
  rewrite availableTimezones_spec. unfold catalogMinusRegistry.
  fold (timezones s). rewrite <- Hsplit, <- Hheld. reflexivity.
Qed.

Lemma offered_step_sound e w :
  offered (app w) e →
  NoDup (timezones (app w))
  ∧ (∀ c, c ∈ worldClocks (app w) →
          TimezoneOption.mk (WorldClock.timezone c) (WorldClock.label c)
          ∈ popularTimezones)
  ∧ (isAddingClock (app w) → availableTimezones (app w) ≠ []) →
  NoDup (timezones (app (step e w)))
  ∧ (∀ c, c ∈ worldClocks (app (step e w)) →
          TimezoneOption.mk (WorldClock.timezone c) (WorldClock.label c)
          ∈ popularTimezones)
  ∧ (isAddingClock (app (step e w)) → availableTimezones (app (step e w)) ≠ []).
Proof.
  intros Hoff (Hnd & Hcat & Hopen).
  assert (Hkeep : worldClocks (app (step e w)) = worldClocks (app w) →
            NoDup (timezones (app (step e w)))
            ∧ (∀ c, c ∈ worldClocks (app (step e w)) →
                 TimezoneOption.mk (WorldClock.timezone c) (WorldClock.label c)
                 ∈ popularTimezones)
            ∧ availableTimezones (app (step e w))
              = availableTimezones (app w)).
  { intros Hwc. unfold timezones.
    by rewrite (availableTimezones_ext _ _ Hwc), Hwc. }
  assert (Hac : ∀ v, isAddingClock (app (onApp (clickAddClock v) w)) = v).
  { intros v. simpl. unfold clickAddClock. by rewrite isAddingClock_commit. }
  destruct e;
    try (match goal with
         | |- context [step ?e w] =>
             destruct (registry_frame e w I) as [Hwc Hsame]
         end;
         destruct (Hkeep Hwc) as (? & ? & Hav);
         split_and!; [done | done | by rewrite Hav, Hsame]).
  - (* the add prompt opens *)
    destruct Hkeep as (? & ? & Hav); [by rewrite worldClocks_step |].
    split_and!; [done | done |].
    intros _. rewrite Hav. by apply addButtonRendered_available.
  - (* the add prompt closes *)
    destruct Hkeep as (? & ? & Hav); [by rewrite worldClocks_step |].
    split_and!; [done | done |].
    change (app (step CloseAddClock w))
      with (app (onApp (clickAddClock false) w)).
    rewrite Hac. intros [].
  - (* an offered entry is added *)
    simpl in Hoff |- *. destruct Hoff as [_ Hav].
    apply elem_of_availableTimezones in Hav as [Hin Hout]. simpl in Hout.
    split_and!.
    + rewrite timezones_addWorldClock, NoDup_app.
      split_and!; [done | | apply NoDup_singleton].
      intros x Hx ->%list_elem_of_singleton. by apply Hout.
    + intros c. rewrite worldClocks_addWorldClock.
      intros [Hc | ->%list_elem_of_singleton]%elem_of_app; [by apply Hcat | done].
    + unfold addWorldClock. rewrite isAddingClock_commit. simpl. intros [].
  - (* a chip is removed *)
    simpl. split_and!.
    + unfold timezones. rewrite worldClocks_removeWorldClock.
      eapply sublist_NoDup; [exact Hnd |].
      apply fmap_sublist, sublist_filter.
    + intros c. rewrite worldClocks_removeWorldClock.
      intros [_ Hc]%list_elem_of_filter. by apply Hcat.
    + unfold removeWorldClock at 1. rewrite isAddingClock_commit. simpl.
      intros Hadding Hnil. apply (Hopen Hadding).
      destruct (availableTimezones (app w)) as [| tz tzs] eqn:Hav; [done |].
      assert (Htz : tz ∈ availableTimezones (removeWorldClock id (app w))).
      { apply elem_of_availableTimezones.
        assert (Htz0 : tz ∈ availableTimezones (app w))
          by (rewrite Hav; apply list_elem_of_here).
        apply elem_of_availableTimezones in Htz0 as [Hc Ho].
        split; [done |]. intros Hin. by apply Ho, (timezones_removeWorldClock id). }
      rewrite Hnil in Htz. by apply elem_of_nil in Htz.
Qed.

Lemma offered_run_sound es : ∀ w,
  offeredRun w es →
  NoDup (timezones (app w))
  ∧ (∀ c, c ∈ worldClocks (app w) →
          TimezoneOption.mk (WorldClock.timezone c) (WorldClock.label c)
          ∈ popularTimezones)
  ∧ (isAddingClock (app w) → availableTimezones (app w) ≠ []) →
  NoDup (timezones (app (run es w)))
  ∧ (∀ c, c ∈ worldClocks (app (run es w)) →
          TimezoneOption.mk (WorldClock.timezone c) (WorldClock.label c)
          ∈ popularTimezones)
  ∧ (isAddingClock (app (run es w)) → availableTimezones (app (run es w)) ≠ []).
Proof.
  induction es as [| e es IH]; intros w Hrun Hinv; [done |].
  destruct Hrun as [Hoff Hrun]. rewrite run_cons.
  apply IH; [done |]. by apply offered_step_sound.
Qed.

(** X15: along a run in which every event was offered by the view when it
    happened, in either variant, the registry holds pairwise distinct time
    zones, each entry is an entry of the catalog, registry and available
    list together always count the twelve catalog entries, and an open add
    prompt is never empty. *)
Theorem offered_runs_keep_registry_sound now clocks es :
  clocks = Card.initialWorldClocks ∨ clocks = Glow.initialWorldClocks →
  offeredRun (initialWorld now clocks) es →
  let s := app (run es (initialWorld now clocks)) in
  NoDup (timezones s)
  ∧ (∀ c, c ∈ worldClocks s →
          TimezoneOption.mk (WorldClock.timezone c) (WorldClock.label c)
          ∈ popularTimezones)
  ∧ (length (availableTimezones s) + length (worldClocks s) = 12)%nat
  ∧ (isAddingClock s → availableTimezones s ≠ []).
Proof.
  intros Hclocks Hrun s.
  assert (Hinv : NoDup (timezones s)
            ∧ (∀ c, c ∈ worldClocks s →
                 TimezoneOption.mk (WorldClock.timezone c) (WorldClock.label c)
                 ∈ popularTimezones)
            ∧ (isAddingClock s → availableTimezones s ≠ [])).
  { apply offered_run_sound; [done |].
    destruct Hclocks as [-> | ->]; split_and!.
    - apply NoDup_nil_2.
    - intros c Hc. by apply elem_of_nil in Hc.
    - intros [].
    - apply (bool_decide_unpack _). vm_compute. exact I.
    - intros c Hc. vm_compute in Hc.
      apply elem_of_cons in Hc as [-> | ->%list_elem_of_singleton]; simpl.
      + do 3 apply list_elem_of_further. apply list_elem_of_here.
      + do 6 apply list_elem_of_further. apply list_elem_of_here.
    - intros []. }
  destruct Hinv as (Hnd & Hcat & Hopen).
  split_and!; [done | done | | done].
  by apply available_complement_length.
Qed.

(** X15 on a session of the glow variant: Paris is added through the
    prompt and London removed. *)
Lemma offered_runs_keep_registry_sound_witness :
  let s := app (run [ OpenAddClock;
                      AddWorldClock 1700000000000 "Europe/Paris" "Paris";
                      RemoveWorldClock "1"; OpenAddClock ]
                    (initialWorld 0 Glow.initialWorldClocks)) in
  NoDup (timezones s)
  ∧ (length (availableTimezones s) + length (worldClocks s) = 12)%nat
  ∧ availableTimezones s ≠ [].
Proof.
  intros s.
  pose proof (offered_runs_keep_registry_sound 0 Glow.initialWorldClocks
    [ OpenAddClock; AddWorldClock 1700000000000 "Europe/Paris" "Paris";
      RemoveWorldClock "1"; OpenAddClock ]) as H.
  destruct H as (Hnd & _ & Hlen & Hopen).
  - by right.
  - simpl. split_and!;
      first [ exact I
            | vm_compute; exact I
            | vm_compute;
              repeat first [apply list_elem_of_here | apply list_elem_of_further] ].
  - split_and!; [exact Hnd | exact Hlen |].
    apply Hopen. vm_compute. exact I.
Defined.

(** ** More of the location badge *)





